(** * mediaverse: the inline-query bot and the interactive search flow

    A shallow embedding of the two TypeScript programs of the repository:
    - [src/index.ts], the messaging bot (module [Bot] below), and
    - the command-line search flow (module [Cli] below),
    together with the parts of the JavaScript platform they rest on.

    Conventions of the model.
    - A JavaScript string is the list of its UTF-16 code units ([list N]);
      the regular expression of [escapeRegExp] has no [u] flag and works on
      code units.
    - A value that may be [undefined] is an [option]; a field of an upstream
      record is optional exactly when the code tests its presence or its
      truthiness before use, and has its declared TypeScript type otherwise.
      Only the fields the code reads are kept.
    - [number] fields hold integers ([Z]); the only non-integer number the
      programs can produce is [NaN], the year of an invalid date.
    - Asynchronous code is written in a state monad over the [World]: the
      trace of outbound events, a clock, what is still to come on standard
      input and the module-level provider cache. An [await] is sequencing;
      [Promise.all] starts every branch first and then delivers the
      completions in order of arrival. A promise may never settle: a request
      may go unanswered, and a prompt may wait for a line that never comes.
    - Standard input comes in chunks, as the stream delivers it. The
      command-line program opens a [readline] interface for each prompt and
      closes it once the prompt is answered, so of a chunk only the first
      line is read: what follows it in the same chunk is lost with the
      interface.
    - What the platform and the outside world supply (the upstream server,
      [JSON.parse], [querystring.escape], the host's date parser and time
      zone, the environment) is a [Platform], over which everything is
      parametric. [console.log] diagnostics are left out. *)

From Stdlib Require Import ZArith NArith String Ascii DecimalString DecimalZ.
From stdpp Require Import base tactics option list gmap sorting.

Local Open Scope Z_scope.

(* ================================================================== *)
(** * JavaScript strings and numbers *)
(* ================================================================== *)

Abbreviation jsstring := (list N).

(** A string literal of the source, as code units (ASCII only). *)
Fixpoint js (s : string) : jsstring :=
  match s with
  | EmptyString => []
  | String a s' => N_of_ascii a :: js s'
  end.

(** The line feed, written [\n] in the source's literals. *)
Definition LF : N := 10%N.
(** The carriage return and the escape character of ['\r\x1b[K']. *)
Definition CR : N := 13%N.
Definition ESC : N := 27%N.
(** The backslash, written [\\] in the source's literals. *)
Definition BACKSLASH : N := 92%N.

(** A JavaScript number as the programs meet it: an integer or [NaN]. *)
Inductive jsnumber : Type :=
| Int (z : Z)
| NaN.

(** [Number::toString] on an integer: its decimal digits, with a sign (the
    form JavaScript gives to every integer below 10^21 in magnitude). *)
Definition Number_toString (z : Z) : jsstring :=
  js (NilEmpty.string_of_int (Z.to_int z)).

(** The abstract operation ToString, as a template literal [`${x}`] applies
    it to the value it interpolates. *)
Class ToString (A : Type) := to_string : A -> jsstring.

#[export] Instance string_ToString : ToString jsstring := fun s => s.
#[export] Instance Z_ToString : ToString Z := Number_toString.
#[export] Instance jsnumber_ToString : ToString jsnumber := fun x =>
  match x with
  | Int z => Number_toString z
  | NaN => js "NaN"
  end.
#[export] Instance bool_ToString : ToString bool := fun b =>
  if b then js "true" else js "false".
(** [undefined] interpolates as the word "undefined". *)
#[export] Instance undefinable_ToString {A} `{ToString A} : ToString (option A) := fun o =>
  match o with
  | Some a => to_string a
  | None => js "undefined"
  end.

(** Truthiness of a string that may be undefined: defined and not empty. *)
Definition truthy_string (o : option jsstring) : bool :=
  match o with
  | Some (_ :: _) => true
  | _ => false
  end.

(** Truthiness of a number that may be undefined: defined and not zero. *)
Definition truthy_number (o : option Z) : bool :=
  match o with
  | Some z => negb (z =? 0)
  | None => false
  end.

(** ['k' in o]: the property is present. *)
Definition has {A} (field : option A) : bool :=
  match field with Some _ => true | None => false end.

(* ------------------------------------------------------------------ *)
(** ** Regular expressions: a character class replaced globally *)
(* ------------------------------------------------------------------ *)

(** A member of a character class [[...]]: a literal code unit or the
    class escape [\s]. *)
Inductive ClassAtom : Type :=
| Lit (c : N)
| ClassS.

(** What [\s] matches (ECMAScript WhiteSpace and LineTerminator): TAB, LF,
    VT, FF, CR, SP, NBSP, U+1680, U+2000..U+200A, LS, PS, U+202F, U+205F,
    U+3000 and the byte order mark. *)
Definition is_whitespace (c : N) : bool :=
  ((9 <=? c) && (c <=? 13) || (c =? 32) || (c =? 160) || (c =? 5760)
   || (8192 <=? c) && (c <=? 8202) || (c =? 8232) || (c =? 8233)
   || (c =? 8239) || (c =? 8287) || (c =? 12288) || (c =? 65279))%N.

Definition atom_matches (a : ClassAtom) (c : N) : bool :=
  match a with
  | Lit c' => (c =? c')%N
  | ClassS => is_whitespace c
  end.

Definition class_matches (cls : list ClassAtom) (c : N) : bool :=
  existsb (fun a => atom_matches a c) cls.

(** A piece of a replacement string: literal text or [$&], the match. *)
Inductive ReplAtom : Type :=
| RLit (c : N)
| RMatched.

Definition expand (tmpl : list ReplAtom) (matched : jsstring) : jsstring :=
  flat_map (fun r => match r with RLit c => [c] | RMatched => matched end) tmpl.

(** [text.replace(/[cls]/g, tmpl)]: the text is scanned left to right, every
    code unit in the class is a match of length one and is replaced by the
    expansion of the template, the others are copied. *)
Fixpoint replace_class_g (cls : list ClassAtom) (tmpl : list ReplAtom)
    (text : jsstring) : jsstring :=
  match text with
  | [] => []
  | c :: rest =>
      (if class_matches cls c then expand tmpl [c] else [c])
        ++ replace_class_g cls tmpl rest
  end.

(** The code unit of an ASCII character. *)
Definition chr (a : ascii) : N := N_of_ascii a.

(** The class of [/[-[\]{}()*+!?.,\\^$|#\s]/g], member by member. *)
Definition escapeRegExp_class : list ClassAtom :=
  [ Lit (chr "-"); Lit (chr "["); Lit (chr "]"); Lit (chr "{"); Lit (chr "}");
    Lit (chr "("); Lit (chr ")"); Lit (chr "*"); Lit (chr "+"); Lit (chr "!");
    Lit (chr "?"); Lit (chr "."); Lit (chr ","); Lit BACKSLASH; Lit (chr "^");
    Lit (chr "$"); Lit (chr "|"); Lit (chr "#"); ClassS ].

(** The replacement ['\\$&']: a backslash, then the match. *)
Definition escapeRegExp_replacement : list ReplAtom := [RLit BACKSLASH; RMatched].

(** [escapeRegExp] (index.ts). *)
Definition escapeRegExp (text : jsstring) : jsstring :=
  replace_class_g escapeRegExp_class escapeRegExp_replacement text.

(** The reading of an escaped text: a backslash stands for the code unit
    that follows it. Used to state what [escapeRegExp] preserves. *)
Fixpoint unescape (text : jsstring) : jsstring :=
  match text with
  | [] => []
  | c :: rest =>
      if (c =? BACKSLASH)%N then
        match rest with
        | [] => [c]
        | c' :: rest' => c' :: unescape rest'
        end
      else c :: unescape rest
  end.

(** The reserved set in the specification's words: the eighteen listed
    characters and whitespace. *)
Definition reserved_characters : jsstring := js "-[]{}()*+!?.,\^$|#".

Definition reserved (c : N) : Prop :=
  c ∈ reserved_characters \/ is_whitespace c = true.

(* ================================================================== *)
(** * The data model *)
(* ================================================================== *)

(** [type Media = 'movie' | 'tv']. *)
Inductive Media : Type := movie | tv.

#[export] Instance Media_eq_dec : EqDecision Media.
Proof. solve_decision. Defined.

#[export] Instance Media_countable : Countable Media.
Proof.
  refine (inj_countable' (fun m => match m with movie => true | tv => false end)
            (fun b : bool => if b then movie else tv) _).
  intros []; reflexivity.
Defined.

#[export] Instance Media_ToString : ToString Media := fun m =>
  match m with movie => js "movie" | tv => js "tv" end.

(** [MovieResult | TVResult]: one record for both variants, which the code
    tells apart by the presence of [title] or [name]. *)
Module MediaResult.
Record t : Type := {
  id : Z;
  title : option jsstring;
  release_date : option jsstring;
  name : option jsstring;
  first_air_date : option jsstring
}.
End MediaResult.

(** [Search<MediaType>]. *)
Module Search.
Record t : Type := {
  page : Z;
  results : option (list MediaResult.t);
  total_pages : Z;
  total_results : Z
}.
End Search.

(** The answer of [/{type}/{id}/watch/providers], as far as the code walks
    it: [results.US.flatrate[i].provider_name]. *)
Module Service.
Record t : Type := { provider_name : jsstring }.
End Service.

Module Region.
Record t : Type := { flatrate : option (list Service.t) }.
End Region.

Module Regions.
Record t : Type := { US : option Region.t }.
End Regions.

Module Providers.
Record t : Type := { results : option Regions.t }.
End Providers.

(** The object built at the end of the formatter's callback. *)
Module InputMessageContent.
Record t : Type := { parse_mode : jsstring; message_text : jsstring }.
End InputMessageContent.

Module InlineResult.
Record t : Type := {
  id : Z;
  type : jsstring;
  title : jsstring;
  input_message_content : InputMessageContent.t
}.
End InlineResult.

(** The inbound [inline_query] update, as far as the handler reads it. *)
Module InlineQuery.
Record t : Type := { query : jsstring; id : jsstring }.
End InlineQuery.

(* ================================================================== *)
(** * The outside world *)
(* ================================================================== *)

Module Request.
Record t : Type := { url : jsstring; headers : list (jsstring * jsstring) }.
End Request.

(** What [https.get] comes back with: a response that ends (status code and
    body), an ['error'] event on the request, or neither: a request that is
    never answered, or whose response never ends. No timeout is set, so
    the promise of [fetch] then never settles. *)
Inductive Response : Type :=
| Reply (statusCode : Z) (body : jsstring)
| RequestError (error : jsstring)
| NoAnswer.

(** The values the programs throw or reject with. *)
Inductive Thrown : Type :=
| SyntaxError
| TypeError
| NetworkError (error : jsstring)
| StringValue (s : jsstring).

(** What a promise comes to. [Pending] is a promise that never settles: a
    request that is never answered, a prompt whose answer never comes. *)
Inductive Outcome (A : Type) : Type :=
| Resolved (a : A)
| Rejected (e : Thrown)
| Pending.
Arguments Resolved {A} a.
Arguments Rejected {A} e.
Arguments Pending {A}.

(** The outbound effects, in the order they happen. [Question q a] is one
    round of [readline]'s [question]: the prompt [q] written, the line [a]
    read. *)
Inductive Event : Type :=
| HttpsGet (r : Request.t)
| AnswerInlineQuery (id : jsstring) (results : list InlineResult.t) (cache_time : Z)
| StdoutWrite (s : jsstring)
| Question (query answer : jsstring).

(** [JSON.parse] followed by the cast to the shape the caller declares;
    [None] is the parser throwing. *)
Class FromJSON (A : Type) := JSON_parse : jsstring -> option A.

(** Everything the programs take from their platform and surroundings. The
    server meets a request knowing all that happened before it; when it
    answers, or the request fails, that takes [latency] ticks. *)
Class Platform : Type := {
  Catalog : Type;
  Details : Type;
  TMDB_TOKEN : option jsstring;
  server : list Event -> Request.t -> Response;
  latency : list Event -> Request.t -> nat;
  Search_FromJSON :: FromJSON Search.t;
  Providers_FromJSON :: FromJSON Providers.t;
  Catalog_FromJSON :: FromJSON Catalog;
  Details_FromJSON :: FromJSON Details;
  querystring_escape : jsstring -> jsstring;
  Date_parse_host : jsstring -> option Z;
  LocalTZA : Z -> Z
}.

(** What one prompt of the command-line program gets from standard input:
    the chunk that brings the end of a line (with what had come before it
    of that line). [line] is the first line, the one [readline] hands to
    the pending question; [rest] is what follows it in the chunk. *)
Module Chunk.
Record t : Type := { line : jsstring; rest : list jsstring }.
End Chunk.

(** The state every asynchronous function runs against. *)
Record World {P : Platform} : Type := {
  trace : list Event;
  clock : nat;
  stdin : list Chunk.t;
  WATCH_PROVIDERS : gmap Media Catalog
}.

(* ================================================================== *)
(** * Dates: [new Date(s).getFullYear()] *)
(* ================================================================== *)

(** ECMAScript's msPerDay, Day, DaysInYear, DayFromYear and TimeFromYear. *)
Definition msPerDay : Z := 86400000.

Definition Day (t : Z) : Z := t / msPerDay.

Definition DaysInYear (y : Z) : Z :=
  if negb (y mod 4 =? 0) then 365
  else if negb (y mod 100 =? 0) then 366
  else if negb (y mod 400 =? 0) then 365
  else 366.

Definition DayFromYear (y : Z) : Z :=
  365 * (y - 1970) + (y - 1969) / 4 - (y - 1901) / 100 + (y - 1601) / 400.

Definition TimeFromYear (y : Z) : Z := msPerDay * DayFromYear y.

(** The search behind YearFromTime: from a year at or below the answer,
    upwards while the next year has begun. *)
Fixpoint year_upwards (fuel : nat) (y d : Z) : Z :=
  match fuel with
  | O => y
  | S fuel' => if DayFromYear (y + 1) <=? d then year_upwards fuel' (y + 1) d else y
  end.

(** YearFromTime: the largest [y] with [TimeFromYear y <= t]. *)
Definition YearFromTime (t : Z) : Z :=
  let d := Day t in
  let below := if 0 <=? d then 1970 + d / 366 else 1970 + d / 365 - 1 in
  year_upwards (Z.to_nat (Z.abs d / 100000) + 8) below d.

(** The days of the months before month [m] (1 to 12) of year [y]. *)
Definition days_before_month (y m : Z) : Z :=
  let leap := DaysInYear y - 365 in
  match m with
  | 1 => 0 | 2 => 31 | 3 => 59 + leap | 4 => 90 + leap | 5 => 120 + leap
  | 6 => 151 + leap | 7 => 181 + leap | 8 => 212 + leap | 9 => 243 + leap
  | 10 => 273 + leap | 11 => 304 + leap | _ => 334 + leap
  end.

Definition days_in_month (y m : Z) : Z :=
  match m with
  | 2 => 28 + (DaysInYear y - 365)
  | 4 | 6 | 9 | 11 => 30
  | _ => 31
  end.

Definition digit (c : N) : option Z :=
  if ((48 <=? c) && (c <=? 57))%N then Some (Z.of_N c - 48) else None.

(** The digits of a field of a date string, most significant first. *)
Fixpoint digits (acc : Z) (cs : jsstring) : option Z :=
  match cs with
  | [] => Some acc
  | c :: rest =>
      match digit c with
      | Some v => digits (10 * acc + v) rest
      | None => None
      end
  end.

(** The date-only form [YYYY-MM-DD] of the Date Time String Format, read as
    midnight UTC of a day that exists; [None] for anything else. *)
Definition parse_date_only (s : jsstring) : option Z :=
  match s with
  | [y1; y2; y3; y4; h1; m1; m2; h2; d1; d2] =>
      if ((h1 =? chr "-") && (h2 =? chr "-"))%N then
        match digits 0 [y1; y2; y3; y4], digits 0 [m1; m2], digits 0 [d1; d2] with
        | Some y, Some m, Some d =>
            if (1 <=? m) && (m <=? 12) && (1 <=? d) && (d <=? days_in_month y m)
            then Some (msPerDay * (DayFromYear y + days_before_month y m + (d - 1)))
            else None
        | _, _, _ => None
        end
      else None
  | _ => None
  end.

Section Dates.
Context {P : Platform}.

(** [Date.parse]: the date-only form is read as the standard says; every
    other string is left to the host's parser. [None] is [NaN]. *)
Definition Date_parse (s : jsstring) : option Z :=
  match parse_date_only s with
  | Some t => Some t
  | None => Date_parse_host s
  end.

(** [new Date(value)]: the time value of a string, [NaN] for [undefined]. *)
Definition Date_new (value : option jsstring) : option Z :=
  match value with
  | Some s => Date_parse s
  | None => None
  end.

(** [getFullYear]: the year of the local time, [NaN] for an invalid date. *)
Definition getFullYear (date : option Z) : jsnumber :=
  match date with
  | Some t => Int (YearFromTime (t + LocalTZA t))
  | None => NaN
  end.

End Dates.

(** The time zone offsets the standard allows: less than a day either way. *)
Definition timezone_within_a_day {P : Platform} : Prop :=
  forall t, - msPerDay < LocalTZA t < msPerDay.

(* ================================================================== *)
(** * Asynchronous functions *)
(* ================================================================== *)

Section Async.
Context {P : Platform}.

(** An asynchronous function run to the point where its promise settles (or
    is known never to). *)
Definition Async (A : Type) : Type := World -> Outcome A * World.

(** [return a] and [throw e] in the body of an asynchronous function. *)
Definition ret {A} (a : A) : Async A := fun w => (Resolved a, w).

Definition throw {A} (e : Thrown) : Async A := fun w => (Rejected e, w).

(** [await m], then [k] on its value; a rejection or a promise that never
    settles ends the function there. *)
Definition bind {A B} (m : Async A) (k : A -> Async B) : Async B := fun w =>
  match m w with
  | (Resolved a, w') => k a w'
  | (Rejected e, w') => (Rejected e, w')
  | (Pending, w') => (Pending, w')
  end.

(** The world once some outbound effects have taken their place in the
    trace. *)
Definition after_events (events : list Event) (w : World) : World :=
  {| trace := trace w ++ events; clock := clock w; stdin := stdin w;
     WATCH_PROVIDERS := WATCH_PROVIDERS w |}.

(** An outbound effect takes its place in the trace. *)
Definition emit (e : Event) : Async unit := fun w => (Resolved tt, after_events [e] w).

End Async.

Notation "'let*' x ':=' m 'in' k" := (bind m (fun x => k))
  (at level 10, x name, m at level 100, k at level 200).

(** One completion arrives no later than another. *)
Definition no_later {A} (x y : nat * A) : Prop := (x.1 <= y.1)%nat.

#[export] Instance no_later_dec {A} (x y : nat * A) : Decision (no_later x y) :=
  decide (x.1 <= y.1)%nat.

Section Platform_operations.
Context {P : Platform}.

(** The world after a request has gone out: it is in the trace, and its
    answer is [latency] ticks away. *)
Definition requested (r : Request.t) (w : World) : World :=
  {| trace := trace w ++ [HttpsGet r];
     clock := (clock w + latency (trace w) r)%nat;
     stdin := stdin w;
     WATCH_PROVIDERS := WATCH_PROVIDERS w |}.

(** The test [res.statusCode >= 200 || res.statusCode <= 299] of both
    [fetch] helpers. *)
Definition success_status (statusCode : Z) : bool :=
  (200 <=? statusCode) || (statusCode <=? 299).

(** What the promise of [fetch] comes to: the callback on a response that
    has ended (the same text in both programs), [reject] on a request
    error, and nothing at all when neither ever happens. *)
Definition on_response {A} `{FromJSON A} (res : Response) : Outcome A :=
  match res with
  | Reply statusCode body =>
      if success_status statusCode then
        match JSON_parse body with
        | Some value => Resolved value
        | None => Rejected SyntaxError
        end
      else
        Rejected (StringValue
          (js "Request could not be made. Status code: " ++ to_string statusCode))
  | RequestError error => Rejected (NetworkError error)
  | NoAnswer => Pending
  end.

(** The headers both [fetch] helpers send. *)
Definition fetch_options (token : option jsstring) : list (jsstring * jsstring) :=
  [ (js "Authorization", js "Bearer " ++ to_string token);
    (js "accept", js "application/json") ].

(** [querystring.stringify] on an object of primitive values, given as its
    entries in insertion order with the values already turned to strings. *)
Fixpoint querystring_stringify (entries : list (jsstring * jsstring)) : jsstring :=
  match entries with
  | [] => []
  | [(k, v)] => querystring_escape k ++ js "=" ++ querystring_escape v
  | (k, v) :: rest =>
      querystring_escape k ++ js "=" ++ querystring_escape v ++ js "&"
        ++ querystring_stringify rest
  end.

(* ------------------------------------------------------------------ *)
(** ** [Promise.all] *)
(* ------------------------------------------------------------------ *)

(** The world with its clock set to [t]. *)
Definition at_clock (t : nat) (w : World) : World :=
  {| trace := trace w; clock := t; stdin := stdin w;
     WATCH_PROVIDERS := WATCH_PROVIDERS w |}.

(** The branches of a [map(async ...)] are started one after the other at
    the same instant; each one is recorded with the time its promise
    settles. *)
Fixpoint start_all {A} (branches : list (Async A)) (start : nat) (w : World)
    : list (nat * Outcome A) * World :=
  match branches with
  | [] => ([], w)
  | p :: rest =>
      let '(o, w1) := p (at_clock start w) in
      let '(os, w2) := start_all rest start w1 in
      ((clock w1, o) :: os, w2)
  end.

(** The completions, each with the index of its promise, in order of
    arrival. (A promise that never settles has no arrival: [deliver] passes
    over it.) *)
Definition arrivals {A} (timed : list (nat * Outcome A))
    : list (nat * (nat * Outcome A)) :=
  merge_sort no_later (imap (fun i to => (to.1, (i, to.2))) timed).

(** [Promise.all]'s resolve-element and reject functions, run on each
    arrival: a value is stored at the index of its promise, the first
    rejection settles the whole. *)
Fixpoint deliver {A} (arrived : list (nat * (nat * Outcome A)))
    (values : list (option A)) (now : nat) : Outcome (list (option A)) * nat :=
  match arrived with
  | [] => (Resolved values, now)
  | (t, (i, Resolved v)) :: rest => deliver rest (<[i := Some v]> values) t
  | (t, (_, Rejected e)) :: _ => (Rejected e, t)
  | (_, (_, Pending)) :: rest => deliver rest values now
  end.

(** The value of the joined promise: the stored values, once every index
    has one. *)
Definition Promise_all_settle {A} (timed : list (nat * Outcome A)) (start : nat)
    : Outcome (list A) * nat :=
  match deliver (arrivals timed) (replicate (length timed) None) start with
  | (Resolved values, t) =>
      match mapM (fun v => v) values with
      | Some vs => (Resolved vs, t)
      | None => (Pending, t)
      end
  | (Rejected e, t) => (Rejected e, t)
  | (Pending, t) => (Pending, t)
  end.

(** [Promise.all] on promises made on the spot: the branches are started,
    the completions delivered, and the clock stands at the time the joined
    promise settled. *)
Definition Promise_all {A} (branches : list (Async A)) : Async (list A) := fun w =>
  let '(timed, w') := start_all branches (clock w) w in
  let '(o, t) := Promise_all_settle timed (clock w) in
  (o, at_clock t w').

End Platform_operations.

(* ================================================================== *)
(** * The bot ([src/index.ts]) *)
(* ================================================================== *)

Module Bot.
Section Program.
Context {P : Platform}.

Definition getTMDBToken : option jsstring := TMDB_TOKEN.

Definition baseUrl : jsstring := js "https://api.themoviedb.org/3".

Definition fetch {A} `{FromJSON A} (url : jsstring) : Async A := fun w =>
  let token := getTMDBToken in
  let options := fetch_options token in
  let request := {| Request.url := url; Request.headers := options |} in
  (on_response (server (trace w) request), requested request w).

Definition movieQuery (queryString : jsstring) : Async Search.t :=
  let url := baseUrl ++ js "/search/movie?" ++ queryString in
  let* results := fetch url in
  ret results.

Definition tvQuery (queryString : jsstring) : Async Search.t :=
  let url := baseUrl ++ js "/search/tv?" ++ queryString in
  let* results := fetch url in
  ret results.

(** [mediaQuery]; the [default] arm of its [switch] has no [Media] to run on. *)
Definition mediaQuery (query : jsstring) (type : Media) (page : Z) : Async Search.t :=
  let queryString :=
    querystring_stringify
      [ (js "query", query); (js "include_adult", to_string false);
        (js "language", js "en-US"); (js "page", to_string page) ] in
  match type with
  | movie => movieQuery queryString
  | tv => tvQuery queryString
  end.

Definition getWatchProvidersByMediaId (id : Z) (type : Media) : Async Providers.t :=
  let url := baseUrl ++ js "/" ++ to_string type ++ js "/" ++ to_string id
               ++ js "/watch/providers" in
  fetch url.

(* ------------------------------------------------------------------ *)
(** ** The provider catalog cache *)
(* ------------------------------------------------------------------ *)

(** [WATCH_PROVIDERS.has], [.set] and [.get]. *)
Definition WATCH_PROVIDERS_has (type : Media) : Async bool := fun w =>
  (Resolved (bool_decide (is_Some (WATCH_PROVIDERS w !! type))), w).

Definition WATCH_PROVIDERS_set (type : Media) (value : Catalog) : Async unit := fun w =>
  (Resolved tt,
   {| trace := trace w; clock := clock w; stdin := stdin w;
      WATCH_PROVIDERS := <[type := value]> (WATCH_PROVIDERS w) |}).

Definition WATCH_PROVIDERS_get (type : Media) : Async (option Catalog) := fun w =>
  (Resolved (WATCH_PROVIDERS w !! type), w).

Definition watchProvidersUrl (type : Media) : jsstring :=
  baseUrl ++ js "/watch/providers/" ++ to_string type
    ++ js "?language=en-US&watch_region=US'".

(** [getWatchProviders], one call run from its start to its end with no
    other call in between. *)
Definition getWatchProviders (type : Media) : Async (option Catalog) :=
  let* present := WATCH_PROVIDERS_has type in
  let* _ :=
    (if negb present then
       let url := watchProvidersUrl type in
       let* value := fetch url in
       WATCH_PROVIDERS_set type value
     else ret tt) in
  WATCH_PROVIDERS_get type.

(** Two calls of [getWatchProviders] for one type, the second made while
    the first awaits its answer. Each call runs up to its [await] when it is
    made (the test, then the request), and from its [await] on (the store,
    then the read) when its answer is delivered. The outcomes of the two
    calls, and the cache between the two deliveries. *)
Definition getWatchProviders_overlapping (type : Media) (w : World)
    : (Outcome (option Catalog) * Outcome (option Catalog))
      * (gmap Media Catalog * World) :=
  let url := watchProvidersUrl type in
  let after_await (answer : Outcome Catalog) : Async (option Catalog) :=
    let* value := (fun w => (answer, w)) in
    let* _ := WATCH_PROVIDERS_set type value in
    WATCH_PROVIDERS_get type in
  match WATCH_PROVIDERS_has type w with
  | (Resolved false, w1) =>
      let '(first_answer, w2) := fetch url w1 in
      match WATCH_PROVIDERS_has type w2 with
      | (Resolved false, w3) =>
          let '(second_answer, w4) := fetch url w3 in
          let '(first, w5) := after_await first_answer w4 in
          let '(second, w6) := after_await second_answer w5 in
          ((first, second), (WATCH_PROVIDERS w5, w6))
      | (_, w3) => ((Pending, Pending), (WATCH_PROVIDERS w3, w3))
      end
  | (_, w1) => ((Pending, Pending), (WATCH_PROVIDERS w1, w1))
  end.

(* ------------------------------------------------------------------ *)
(** ** The inline results *)
(* ------------------------------------------------------------------ *)

(** The callback of [filter]. *)
Definition filter_callback (type : Media) (result : MediaResult.t) : bool :=
  match type with
  | movie => has (MediaResult.title result)
  | tv => has (MediaResult.name result)
  end.

(** The [switch] of the callback of [map]: [title] and [date]. *)
Definition title_of (type : Media) (result : MediaResult.t) : option jsstring :=
  match type with
  | movie =>
      if has (MediaResult.title result) then MediaResult.title result else None
  | tv =>
      if has (MediaResult.name result) then MediaResult.name result else None
  end.

Definition date_of (type : Media) (result : MediaResult.t) : option jsstring :=
  match type with
  | movie =>
      if has (MediaResult.title result) then MediaResult.release_date result else None
  | tv =>
      if has (MediaResult.first_air_date result)
      then MediaResult.first_air_date result else None
  end.

(** [const year = date ? new Date(date).getFullYear() : undefined]. *)
Definition year_of (type : Media) (result : MediaResult.t) : option jsnumber :=
  let date := date_of type result in
  if truthy_string date then Some (getFullYear (Date_new date)) else None.

(** The variable [watch] once the provider data has been walked. *)
Definition watch_of (providers : Providers.t) : jsstring :=
  let watch := [] in
  match Providers.results providers with
  | Some results =>
      match Regions.US results with
      | Some US =>
          match Region.flatrate US with
          | Some flatrate =>
              let watch := watch ++ js "Streaming on:" ++ [LF] in
              fold_left
                (fun watch service => watch ++ Service.provider_name service ++ [LF])
                flatrate watch
          | None => watch
          end
      | None => watch
      end
  | None => watch
  end.

(** The object [inlineResult] of the callback of [map]. *)
Definition inlineResult (type : Media) (result : MediaResult.t)
    (providers : Providers.t) : InlineResult.t :=
  let id := MediaResult.id result in
  let title := title_of type result in
  let year := year_of type result in
  let watch := watch_of providers in
  let message_text :=
    escapeRegExp
      (to_string title ++ js " (" ++ to_string year ++ js ")" ++ [LF; LF] ++ watch) in
  {| InlineResult.id := id;
     InlineResult.type := js "article";
     InlineResult.title := to_string title ++ js " (" ++ to_string year ++ js ")";
     InlineResult.input_message_content :=
       {| InputMessageContent.parse_mode := js "MarkdownV2";
          InputMessageContent.message_text := message_text |} |}.

(** The callback of [map]. *)
Definition map_callback (type : Media) (result : MediaResult.t) : Async InlineResult.t :=
  let id := MediaResult.id result in
  let* providers := getWatchProvidersByMediaId id type in
  ret (inlineResult type result providers).

(** [getInlineResultsMap]; [None] is the [return;] that yields [undefined]. *)
Definition getInlineResultsMap (query : jsstring) (type : Media)
    : Async (option (list InlineResult.t)) :=
  let* search := mediaQuery query type 1 in
  match Search.results search with
  | None => ret None
  | Some results =>
      let resultsPromises :=
        map (map_callback type) (filter (fun r => filter_callback type r = true) (take 10 results)) in
      let* all := Promise_all resultsPromises in
      ret (Some all)
  end.

(** [getInlineResults]; spreading [undefined] throws a [TypeError]. *)
Definition getInlineResults (query : jsstring) : Async (list InlineResult.t) :=
  let* movies := getInlineResultsMap query movie in
  let* tvs := getInlineResultsMap query tv in
  match movies, tvs with
  | Some movies, Some tvs => let inlineResults := movies ++ tvs in ret inlineResults
  | _, _ => throw TypeError
  end.

(** The listener of ['inline_query']. *)
Definition on_inline_query (inlineQuery : InlineQuery.t) : Async unit :=
  let query := InlineQuery.query inlineQuery in
  let id := InlineQuery.id inlineQuery in
  let* results := getInlineResults query in
  if (0 <? length results)%nat
  then emit (AnswerInlineQuery id results 0)
  else ret tt.

End Program.
End Bot.

(* ================================================================== *)
(** * The interactive search flow (the command-line program) *)
(* ================================================================== *)

Module Cli.
Section Program.
Context {P : Platform}.

Definition getToken : option jsstring := TMDB_TOKEN.

Definition baseUrl : jsstring := js "https://api.themoviedb.org/3/".

Definition fetch {A} `{FromJSON A} (url : jsstring) : Async A := fun w =>
  let token := getToken in
  let options := fetch_options token in
  let request := {| Request.url := url; Request.headers := options |} in
  (on_response (server (trace w) request), requested request w).

Definition movieQuery (queryString : jsstring) : Async Search.t :=
  let url := baseUrl ++ js "/search/movie?" ++ queryString in
  let* results := fetch url in
  ret results.

Definition tvQuery (queryString : jsstring) : Async Search.t :=
  let url := baseUrl ++ js "/search/tv?" ++ queryString in
  let* results := fetch url in
  ret results.

Definition mediaQuery (query : jsstring) (type : Media) (page : Z) : Async Search.t :=
  let queryString :=
    querystring_stringify
      [ (js "query", query); (js "include_adult", to_string false);
        (js "language", js "en-US"); (js "page", to_string page) ] in
  match type with
  | movie => movieQuery queryString
  | tv => tvQuery queryString
  end.

Definition getMediaById (id : Z) (type : Media) : Async Details :=
  let url := baseUrl ++ js "/" ++ to_string type ++ js "/" ++ to_string id in
  fetch url.

(** [handleUserInput], on the chunks still to come. Each round makes a
    [readline] interface and is one [getUserInput]: the prompt is written
    and the first line of the next chunk answers it; [input.close()] then
    drops the rest of that chunk with the interface. A line outside
    [validResponses] clears the line on the terminal and asks again, on a
    new interface. With no chunk left the answer never comes. *)
Fixpoint handleUserInput_on (chunks : list Chunk.t) (query : jsstring)
    (validResponses : list jsstring) (events : list Event)
    : Outcome jsstring * (list Event * list Chunk.t) :=
  match chunks with
  | [] => (Pending, (events ++ [StdoutWrite query], []))
  | chunk :: later =>
      let response := Chunk.line chunk in
      let events := events ++ [Question query response] in
      if bool_decide (response ∈ validResponses) then (Resolved response, (events, later))
      else
        handleUserInput_on later (js "Pick an option: ") validResponses
          (events ++ [StdoutWrite ([CR; ESC] ++ js "[K")])
  end.

Definition handleUserInput (query : jsstring) (validResponses : list jsstring)
    : Async jsstring := fun w =>
  let '(o, (events, rest)) :=
    handleUserInput_on (stdin w) query validResponses (trace w) in
  (o, {| trace := events; clock := clock w; stdin := rest;
         WATCH_PROVIDERS := WATCH_PROVIDERS w |}).

(** The line written for the result at [index] by the callback of
    [forEach]: [`${optNum}. ${title} (${year})\n`]. *)
Definition option_line (index : Z) (result : MediaResult.t) : jsstring :=
  let optNum := to_string (index + 1) in
  let title :=
    if has (MediaResult.title result) then MediaResult.title result
    else MediaResult.name result in
  let date :=
    if has (MediaResult.release_date result) then MediaResult.release_date result
    else MediaResult.first_air_date result in
  let year := getFullYear (Date_new date) in
  optNum ++ js ". " ++ to_string title ++ js " (" ++ to_string year ++ js ")" ++ [LF].

(** The line of the extra option: [`${results.length + 1}. [SHOW MORE RESULTS]\n`]. *)
Definition show_more_line (results : list MediaResult.t) : jsstring :=
  to_string (Z.of_nat (length results) + 1) ++ js ". [SHOW MORE RESULTS]" ++ [LF].

(** The [forEach] of [getAnswerFromUser], from [index] on: the option
    numbers pushed, the map filled, one line written for each result. *)
Fixpoint forEach_result (results : list MediaResult.t) (index : Z)
    (validChoices : list jsstring) (resultsMap : gmap jsstring MediaResult.t)
    : Async (list jsstring * gmap jsstring MediaResult.t) :=
  match results with
  | [] => ret (validChoices, resultsMap)
  | result :: rest =>
      let optNum := to_string (index + 1) in
      let validChoices := validChoices ++ [to_string (index + 1)] in
      let resultsMap := <[optNum := result]> resultsMap in
      let* _ := emit (StdoutWrite (option_line index result)) in
      forEach_result rest (index + 1) validChoices resultsMap
  end.

(** [getAnswerFromUser]; [results.forEach] on [undefined] throws. *)
Definition getAnswerFromUser (results : option (list MediaResult.t))
    (showMoreResults : bool) : Async (option Z) :=
  match results with
  | None => throw TypeError
  | Some results =>
      let* listed := forEach_result results 0 [] ∅ in
      let validChoices := listed.1 in
      let resultsMap := listed.2 in
      let* validChoices :=
        (if showMoreResults then
           let showMoreResultsOptNum := to_string (Z.of_nat (length results) + 1) in
           let validChoices := validChoices ++ [showMoreResultsOptNum] in
           let* _ := emit (StdoutWrite (show_more_line results)) in
           ret validChoices
         else ret validChoices) in
      let* choice := handleUserInput (js "Pick an option: ") validChoices in
      let result := resultsMap !! choice in
      match result with
      | Some result => ret (Some (MediaResult.id result))
      | None => ret None
      end
  end.

(** [userSearch], with a bound on the number of searches; the bound is
    never met when it exceeds the number of chunks to come, since every
    search but the last takes a chunk (see [userSearch]). *)
Fixpoint userSearch_within (searches : nat) (query : jsstring) (type : Media)
    (page : Z) : Async (option Details) :=
  match searches with
  | O => fun w => (Pending, w)
  | S searches' =>
      let* search := mediaQuery query type page in
      let results := Search.results search in
      let total_pages := Search.total_pages search in
      let currentPage := page in
      let showMoreResults := currentPage <? total_pages in
      let* id := getAnswerFromUser results showMoreResults in
      let otherwise :=
        if showMoreResults && (currentPage <? total_pages)
        then userSearch_within searches' query type (currentPage + 1)
        else ret None in
      match id with
      | Some id' =>
          if truthy_number id then
            let* details := getMediaById id' type in
            ret (Some details)
          else otherwise
      | None => otherwise
      end
  end.

Definition userSearch (query : jsstring) (type : Media) (page : Z)
    : Async (option Details) := fun w =>
  userSearch_within (S (length (stdin w))) query type page w.

End Program.
End Cli.

(* ================================================================== *)
(** * A concrete platform, for running the programs on examples *)
(* ================================================================== *)

Module Example.

Definition the_terminator : MediaResult.t :=
  {| MediaResult.id := 218;
     MediaResult.title := Some (js "The Terminator");
     MediaResult.release_date := Some (js "1984-10-26");
     MediaResult.name := None;
     MediaResult.first_air_date := None |}.

(** A result that carries neither [title] nor [name]. *)
Definition nameless : MediaResult.t :=
  {| MediaResult.id := 7;
     MediaResult.title := None;
     MediaResult.release_date := Some (js "2001-01-01");
     MediaResult.name := None;
     MediaResult.first_air_date := None |}.

(** A film with no release date yet. *)
Definition unreleased : MediaResult.t :=
  {| MediaResult.id := 900;
     MediaResult.title := Some (js "Untitled Sequel");
     MediaResult.release_date := Some [];
     MediaResult.name := None;
     MediaResult.first_air_date := None |}.

(** A result whose identifier is zero. *)
Definition zeroth : MediaResult.t :=
  {| MediaResult.id := 0;
     MediaResult.title := Some (js "Zero");
     MediaResult.release_date := Some (js "2000-06-15");
     MediaResult.name := None;
     MediaResult.first_air_date := None |}.

Definition pantheon : MediaResult.t :=
  {| MediaResult.id := 194797;
     MediaResult.title := None;
     MediaResult.release_date := None;
     MediaResult.name := Some (js "Pantheon");
     MediaResult.first_air_date := Some (js "2022-09-01") |}.

Definition search_of (results : option (list MediaResult.t)) (total_pages : Z) (page : Z)
    : Search.t :=
  {| Search.page := page; Search.results := results;
     Search.total_pages := total_pages;
     Search.total_results :=
       match results with Some l => Z.of_nat (length l) | None => 0 end |}.

Definition providers_of (flatrate : option (list jsstring)) : Providers.t :=
  {| Providers.results :=
       Some {| Regions.US :=
                 Some {| Region.flatrate :=
                           option_map (map (fun n => {| Service.provider_name := n |}))
                             flatrate |} |} |}.

Definition netflix : Providers.t := providers_of (Some [js "Netflix"]).
Definition no_flatrate : Providers.t := providers_of None.
Definition empty_flatrate : Providers.t := providers_of (Some []).
Definition no_region : Providers.t := {| Providers.results := None |}.

(** The bodies the example server sends, by name. *)
Definition parse_search (body : jsstring) : option Search.t :=
  if decide (body = js "movies") then
    Some (search_of (Some [the_terminator; nameless; unreleased]) 1 1)
  else if decide (body = js "shows") then Some (search_of (Some [pantheon]) 1 1)
  else if decide (body = js "nothing") then Some (search_of (Some []) 1 1)
  else if decide (body = js "error") then Some (search_of None 0 0)
  else if decide (body = js "page 1") then
    Some (search_of (Some [the_terminator; zeroth]) 3 1)
  else if decide (body = js "page 2") then Some (search_of (Some [unreleased]) 3 2)
  else None.

Definition parse_providers (body : jsstring) : option Providers.t :=
  if decide (body = js "netflix") then Some netflix
  else if decide (body = js "none") then Some no_flatrate
  else if decide (body = js "empty") then Some empty_flatrate
  else if decide (body = js "{}") then Some no_region
  else None.

Definition is_HttpsGet (e : Event) : bool :=
  match e with HttpsGet _ => true | _ => false end.

(** The number of requests made so far. *)
Definition requests_so_far (events : list Event) : nat :=
  length (List.filter is_HttpsGet events).

(** A server that answers the n-th request with the n-th entry of a
    script, whatever the request; the later a request, the sooner its
    answer, so that answers to requests made together arrive in reverse. *)
Definition scripted (script : list Response) : Platform :=
  {| Catalog := jsstring;
     Details := jsstring;
     TMDB_TOKEN := Some (js "token");
     server := fun events _ =>
       nth (requests_so_far events) script (RequestError (js "ECONNRESET"));
     latency := fun events _ => (100 - requests_so_far events)%nat;
     Search_FromJSON := parse_search;
     Providers_FromJSON := parse_providers;
     Catalog_FromJSON := fun body => Some body;
     Details_FromJSON := fun body => Some body;
     querystring_escape := fun s => s;
     Date_parse_host := fun _ => None;
     LocalTZA := fun _ => -18000000 |}.

Definition ok (body : string) : Response := Reply 200 (js body).

(** A line that comes in a chunk of its own, as when it is typed. *)
Definition typed (line : jsstring) : Chunk.t := {| Chunk.line := line; Chunk.rest := [] |}.

(** The world at the start of a process, with the lines to come, each in a
    chunk of its own. *)
Definition start {P : Platform} (lines : list jsstring) : World :=
  {| trace := []; clock := 0; stdin := map typed lines; WATCH_PROVIDERS := ∅ |}.

(** The same, with standard input as it comes when it is piped: several
    lines to a chunk. *)
Definition start_piped {P : Platform} (chunks : list Chunk.t) : World :=
  {| trace := []; clock := 0; stdin := chunks; WATCH_PROVIDERS := ∅ |}.

End Example.

(* ================================================================== *)
(** * The vocabulary of the statements *)
(* ================================================================== *)

(** Membership in the reserved set can be decided. *)
#[export] Instance reserved_dec c : Decision (reserved c).
Proof. unfold reserved. apply _. Defined.

(** The header [`${title} (${year})`] of a result. *)
Definition header_of {P : Platform} (type : Media) (result : MediaResult.t) : jsstring :=
  to_string (Bot.title_of type result) ++ js " ("
    ++ to_string (Bot.year_of type result) ++ js ")".

(** The subscription-streaming list of the US region, when there is one. *)
Definition us_flatrate (providers : Providers.t) : option (list Service.t) :=
  match Providers.results providers with
  | Some results =>
      match Regions.US results with
      | Some US => Region.flatrate US
      | None => None
      end
  | None => None
  end.

(** The message body of a formatted result. *)
Definition message_text_of (r : InlineResult.t) : jsstring :=
  InputMessageContent.message_text (InlineResult.input_message_content r).

(** The trace of [w'] is the trace of [w] followed by requests only. *)
Definition requests_only {P : Platform} (w w' : World) : Prop :=
  exists requests, trace w' = trace w ++ map HttpsGet requests.

(** A server that leaves no request unanswered: each one gets a response
    that ends, or fails. *)
Definition answering {P : Platform} : Prop :=
  forall events request, server events request <> NoAnswer.

(** An asynchronous function whose only effects are requests, and which
    settles when no request is left unanswered. *)
Definition requesting {P : Platform} {A} (m : Async A) : Prop :=
  forall w, (answering -> (m w).1 <> Pending) /\ requests_only w (m w).2.

(** The field that tells a variant: [title] for a movie, [name] for tv. *)
Definition variant_field (type : Media) (result : MediaResult.t) : option jsstring :=
  match type with
  | movie => MediaResult.title result
  | tv => MediaResult.name result
  end.

(** The raw results that reach the formatter: of the first ten, those that
    pass the filter, in their order. *)
Definition candidates {P : Platform} (type : Media) (results : list MediaResult.t)
    : list MediaResult.t :=
  filter (fun r => Bot.filter_callback type r = true) (take 10 results).

(** [o] is the formatted result of [r], for some provider data. *)
Definition formats {P : Platform} (type : Media) (r : MediaResult.t) (o : InlineResult.t)
    : Prop :=
  exists providers, o = Bot.inlineResult type r providers.

(** Calls of [getWatchProviders] made one after the other, each awaited to
    its end before the next is made: the world they leave. *)
Definition consecutive_calls {P : Platform} (calls : list Media) (w : World) : World :=
  fold_left (fun w type => (Bot.getWatchProviders type w).2) calls w.

(** The numbers of the options that stand for results: 1 to the number of
    results. *)
Definition option_numbers (results : list MediaResult.t) : list jsstring :=
  imap (fun k _ => to_string (Z.of_nat k + 1)) results.

(** The choices on offer when more results can be shown: the numbers of
    the results, then one more. *)
Definition choices_with_more (results : list MediaResult.t) : list jsstring :=
  option_numbers results ++ [to_string (Z.of_nat (length results) + 1)].

(** The world once the options have been written, the extra one last. *)
Definition menu_with_more {P : Platform} (results : list MediaResult.t) (w : World) : World :=
  after_events
    (imap (fun k r => StdoutWrite (Cli.option_line (Z.of_nat k) r)) results
       ++ [StdoutWrite (Cli.show_more_line results)]) w.

(** The value a promise resolved with, [d] when it did not. *)
Definition resolved {A} (d : A) (o : Outcome A) : A :=
  match o with Resolved a => a | _ => d end.

(** The addresses requested, in order. *)
Definition requested_urls (events : list Event) : list jsstring :=
  omap (fun e => match e with HttpsGet r => Some (Request.url r) | _ => None end) events.

(** A server with results of both kinds: three films (one of them with no
    title), then the provider data of the two that have one, then one
    series and its provider data. *)
Definition busy : Platform :=
  Example.scripted
    [ Example.ok "movies"; Example.ok "netflix"; Example.ok "none";
      Example.ok "shows"; Example.ok "empty" ].

(** A server that finds nothing. *)
Definition quiet : Platform := Example.scripted [Example.ok "nothing"; Example.ok "nothing"].


(** A server with three pages of films. *)
Definition paged : Platform :=
  Example.scripted [Example.ok "page 1"; Example.ok "page 2"; Example.ok "details"].

(** An inline query for "terminator". *)
Definition a_query : InlineQuery.t :=
  {| InlineQuery.query := js "terminator"; InlineQuery.id := js "42" |}.

(** The first page of the paged server. *)
Definition first_page : list MediaResult.t := [Example.the_terminator; Example.zeroth].

(** The world once the first page has been fetched and its menu written,
    with [lines] waiting on standard input. *)
Definition menu_written (lines : list jsstring) : World :=
  menu_with_more (P := paged) first_page
    (Cli.mediaQuery (P := paged) (js "terminator") movie 1 (Example.start lines)).2.

(** The world once the user's answer to that menu has been accepted. *)
Definition answered (lines : list jsstring) : World :=
  (Cli.handleUserInput (P := paged) (js "Pick an option: ") (choices_with_more first_page)
     (menu_written lines)).2.

(* ------------------------------------------------------------------ *)
(** ** Further vocabulary: the requests of the bot *)
(* ------------------------------------------------------------------ *)

(** The request [fetch] makes for an address. *)
Definition request_for {P : Platform} (url : jsstring) : Request.t :=
  {| Request.url := url; Request.headers := fetch_options TMDB_TOKEN |}.

(** The query string of a search: [querystring.stringify] of the object
    built in [mediaQuery]. *)
Definition search_query_string {P : Platform} (query : jsstring) (page : Z) : jsstring :=
  querystring_stringify
    [ (js "query", query); (js "include_adult", js "false");
      (js "language", js "en-US"); (js "page", to_string page) ].

(** The address the bot searches at. *)
Definition search_url {P : Platform} (query : jsstring) (type : Media) (page : Z) : jsstring :=
  Bot.baseUrl ++ js "/search/" ++ to_string type ++ js "?" ++ search_query_string query page.

(** The address of the provider data of a result. *)
Definition providers_url (type : Media) (result : MediaResult.t) : jsstring :=
  Bot.baseUrl ++ js "/" ++ to_string type ++ js "/"
    ++ to_string (MediaResult.id result) ++ js "/watch/providers".

(** Standard input and the provider cache are as they were. *)
Definition same_input_and_cache {P : Platform} (w w' : World) : Prop :=
  stdin w' = stdin w /\ WATCH_PROVIDERS w' = WATCH_PROVIDERS w.

(** A formatted result as the bot always builds it: an article whose body
    is to be read as MarkdownV2. *)
Definition article (r : InlineResult.t) : Prop :=
  InlineResult.type r = js "article"
  /\ InputMessageContent.parse_mode (InlineResult.input_message_content r) = js "MarkdownV2".

(** A server that is down. *)
Definition down : Platform := Example.scripted [].

(** The provider lookups of the results that reach the formatter, as
    [Promise.all] finds them: the outcome of each, with the time at which
    it arrived. *)
Definition provider_lookups {P : Platform} (type : Media) (results : list MediaResult.t)
    (w : World) : list (nat * Outcome InlineResult.t) :=
  (start_all (map (Bot.map_callback type) (candidates type results)) (clock w) w).1.

(** A server that finds the three films and then fails both provider
    lookups, each with an error of its own. *)
Definition flaky : Platform :=
  Example.scripted
    [ Example.ok "movies"; RequestError (js "first lookup"); RequestError (js "second lookup") ].

(** A film released on the first day of a year. *)
Definition new_year_film : MediaResult.t :=
  {| MediaResult.id := 1000;
     MediaResult.title := Some (js "First Light");
     MediaResult.release_date := Some (js "2024-01-01");
     MediaResult.name := None;
     MediaResult.first_air_date := None |}.

(** The request [getWatchProviders] makes for the catalog of a type. *)
Definition catalog_request {P : Platform} (type : Media) : Request.t :=
  request_for (Bot.watchProvidersUrl type).

(* ------------------------------------------------------------------ *)
(** ** Further vocabulary: the interactive search flow *)
(* ------------------------------------------------------------------ *)

(** The sequence that clears the line on the terminal. *)
Definition clear_line : jsstring := [CR; ESC] ++ js "[K".

(** What passes on the terminal while answers are refused one after the
    other: each is asked for, the first with [query] and the later ones
    with the standing prompt, and the line is cleared after it. *)
Fixpoint refusals (query : jsstring) (lines : list jsstring) : list Event :=
  match lines with
  | [] => []
  | line :: rest =>
      Question query line :: StdoutWrite clear_line :: refusals (js "Pick an option: ") rest
  end.

(** The prompt of the round that follows the refused answers. *)
Definition prompt_after (query : jsstring) (refused : list jsstring) : jsstring :=
  match refused with [] => query | _ => js "Pick an option: " end.

(** The choices on offer: the numbers of the results, then one more when
    more results can be shown. *)
Definition choices_on_offer (showMoreResults : bool) (results : list MediaResult.t)
    : list jsstring :=
  option_numbers results
    ++ (if showMoreResults then [to_string (Z.of_nat (length results) + 1)] else []).

(** The world once the options have been written. *)
Definition menu {P : Platform} (showMoreResults : bool) (results : list MediaResult.t)
    (w : World) : World :=
  after_events
    (imap (fun k r => StdoutWrite (Cli.option_line (Z.of_nat k) r)) results
       ++ (if showMoreResults then [StdoutWrite (Cli.show_more_line results)] else [])) w.

(** The number of requests in a trace. *)
Definition requests_made (events : list Event) : nat := length (requested_urls events).

(** A stretch of a run from [w] to [w']: the chunks of standard input
    taken, in order, and the number of requests made; the trace only grows
    and the cache of providers is left alone. *)
Definition stretch {P : Platform} (w w' : World) (consumed : list Chunk.t) (requests : nat)
    : Prop :=
  stdin w = consumed ++ stdin w'
  /\ trace w `prefix_of` trace w'
  /\ requests_made (trace w') = (requests_made (trace w) + requests)%nat
  /\ WATCH_PROVIDERS w' = WATCH_PROVIDERS w.

(** The last thing that happened in [w] is a request that is never
    answered. *)
Definition unanswered {P : Platform} (w : World) : Prop :=
  exists events request,
    trace w = events ++ [HttpsGet request] /\ server events request = NoAnswer.

(** A server with a single page of three films, then the details of one. *)
Definition single_page : Platform :=
  Example.scripted [Example.ok "movies"; Example.ok "details"].

(** A server whose single page is empty. *)
Definition empty_page : Platform := Example.scripted [Example.ok "nothing"].

(* ================================================================== *)
(** * Escaping *)
(* ================================================================== *)

(** The class of the regular expression is the reserved set. *)
Lemma class_matches_reserved c :
  class_matches escapeRegExp_class c = true <-> reserved c.
Proof.
  unfold reserved, class_matches, escapeRegExp_class, reserved_characters.
  cbn [existsb atom_matches js].
  rewrite !orb_true_iff, !N.eqb_eq, !elem_of_cons, elem_of_nil.
  unfold chr, BACKSLASH. cbn [N_of_ascii].
  intuition (auto; discriminate).
Qed.

Lemma escapeRegExp_nil : escapeRegExp [] = [].
Proof. reflexivity. Qed.

Lemma escapeRegExp_cons c text :
  escapeRegExp (c :: text) =
  (if decide (reserved c) then [BACKSLASH; c] else [c]) ++ escapeRegExp text.
Proof.
  unfold escapeRegExp at 1. cbn [replace_class_g]. fold (escapeRegExp text).
  destruct (class_matches escapeRegExp_class c) eqn:E.
  - apply class_matches_reserved in E. rewrite decide_True by done. reflexivity.
  - rewrite decide_False; [reflexivity|].
    intros R. apply class_matches_reserved in R. congruence.
Qed.

(** Escaping goes through concatenation: it works code unit by code unit. *)
Lemma escapeRegExp_app a b :
  escapeRegExp (a ++ b) = escapeRegExp a ++ escapeRegExp b.
Proof.
  induction a as [|c a IH]; [done|].
  cbn [app]. rewrite !escapeRegExp_cons, IH, <- app_assoc. reflexivity.
Qed.

Lemma backslash_reserved : reserved BACKSLASH.
Proof. apply class_matches_reserved. reflexivity. Qed.

Lemma unescape_escapeRegExp text : unescape (escapeRegExp text) = text.
Proof.
  induction text as [|c text IH]; [done|].
  rewrite escapeRegExp_cons. destruct (decide (reserved c)) as [R|R].
  - cbn. rewrite IH. reflexivity.
  - cbn [app unescape]. destruct (N.eqb_spec c BACKSLASH) as [->|_].
    + destruct R. apply backslash_reserved.
    + rewrite IH. reflexivity.
Qed.

(** C3. [escapeRegExp] puts exactly one backslash before every occurrence
    of a reserved character (the eighteen listed ones and whitespace) and
    alters nothing else: whatever surrounds an occurrence [c] of a code unit
    in the input, the output is the escaped text before it, then [c] (behind
    one new backslash when it is reserved, as it is when not), then the
    escaped text after it; reading the backslashes away gives the input
    back; and a text with no reserved character is returned unchanged. *)
Theorem escapeRegExp_prefixes_reserved (text : jsstring) :
  (forall before c after, text = before ++ c :: after ->
     escapeRegExp text =
     escapeRegExp before
       ++ (if decide (reserved c) then [BACKSLASH; c] else [c])
       ++ escapeRegExp after)
  /\ unescape (escapeRegExp text) = text
  /\ (Forall (fun c => ~ reserved c) text -> escapeRegExp text = text).
Proof.
  split; [|split].
  - intros before c after ->. rewrite escapeRegExp_app, escapeRegExp_cons. reflexivity.
  - apply unescape_escapeRegExp.
  - induction 1 as [|c text Hc _ IH]; [done|].
    rewrite escapeRegExp_cons, decide_False, IH by done. reflexivity.
Qed.

Lemma escapeRegExp_prefixes_reserved_witness :
  escapeRegExp (js "Mr. Robot") = js "Mr\.\ Robot"
  /\ unescape (js "Mr\.\ Robot") = js "Mr. Robot"
  /\ escapeRegExp (js "Alien") = js "Alien".
Proof.
  destruct (escapeRegExp_prefixes_reserved (js "Mr. Robot")) as (H1 & H2 & _).
  destruct (escapeRegExp_prefixes_reserved (js "Alien")) as (_ & _ & H3).
  split; [|split].
  - rewrite (H1 (js "Mr") (chr ".") (js " Robot") eq_refl). reflexivity.
  - exact H2.
  - apply H3. apply (bool_decide_unpack _). vm_compute. exact I.
Defined.

(* ================================================================== *)
(** * The fetch helper *)
(* ================================================================== *)

Section Fetch.
Context {P : Platform}.

Lemma success_status_always statusCode : success_status statusCode = true.
Proof.
  unfold success_status. destruct (Z.leb_spec 200 statusCode) as [_|Hlt]; [done|].
  cbn [orb]. apply Z.leb_le. lia.
Qed.

Lemma on_response_Reply {A} `{FromJSON A} statusCode body :
  on_response (A := A) (Reply statusCode body) =
  match JSON_parse body with
  | Some value => Resolved value
  | None => Rejected SyntaxError
  end.
Proof. unfold on_response. rewrite success_status_always. reflexivity. Qed.

Lemma on_response_never_status {A} `{FromJSON A} res s :
  on_response (A := A) res <> Rejected (StringValue s).
Proof.
  destruct res as [statusCode body|e|]; [rewrite on_response_Reply| |];
    cbn; [destruct (JSON_parse body)| |]; discriminate.
Qed.

(** C1. The test [statusCode >= 200 || statusCode <= 299] holds of every
    integer; so, whatever its status, a response has its body parsed (the
    promise resolves with the parsed value, or rejects with the parser's
    error), and neither [fetch] ever rejects with the message
    'Request could not be made. Status code: ...'. *)
Theorem fetch_status_test_always_passes :
  (forall statusCode : Z, success_status statusCode = true)
  /\ (forall A (J : FromJSON A) statusCode body,
        on_response (A := A) (Reply statusCode body) =
        match JSON_parse body with
        | Some value => Resolved value
        | None => Rejected SyntaxError
        end)
  /\ (forall A (J : FromJSON A) url w,
        (Bot.fetch (A := A) url w).1 =
          on_response (server (trace w)
            {| Request.url := url; Request.headers := fetch_options TMDB_TOKEN |})
        /\ (Cli.fetch (A := A) url w).1 =
          on_response (server (trace w)
            {| Request.url := url; Request.headers := fetch_options TMDB_TOKEN |}))
  /\ (forall A (J : FromJSON A) url w (statusCode : Z),
        (Bot.fetch (A := A) url w).1 <>
          Rejected (StringValue
            (js "Request could not be made. Status code: " ++ to_string statusCode))
        /\ (Cli.fetch (A := A) url w).1 <>
          Rejected (StringValue
            (js "Request could not be made. Status code: " ++ to_string statusCode))).
Proof.
  split; [exact success_status_always|].
  split; [intros; apply on_response_Reply|].
  split; [intros; split; reflexivity|].
  intros A J url w statusCode. split; apply on_response_never_status.
Qed.

End Fetch.

(* ================================================================== *)
(** * The year of a result *)
(* ================================================================== *)

Lemma year_upwards_spec fuel : forall y d,
  DayFromYear y <= d -> d < DayFromYear (y + Z.of_nat fuel) ->
  DayFromYear (year_upwards fuel y d) <= d < DayFromYear (year_upwards fuel y d + 1).
Proof.
  induction fuel as [|fuel IH]; intros y d Hlo Hhi; cbn [year_upwards].
  - rewrite Z.add_0_r in Hhi. lia.
  - destruct (Z.leb_spec (DayFromYear (y + 1)) d) as [Hle|Hgt]; [|lia].
    apply IH; [done|].
    replace (y + 1 + Z.of_nat fuel) with (y + Z.of_nat (S fuel)) by lia. done.
Qed.

(** [YearFromTime] is what the standard defines: the year in which the time
    value falls. *)
Lemma YearFromTime_spec t :
  TimeFromYear (YearFromTime t) <= t < TimeFromYear (YearFromTime t + 1).
Proof.
  unfold YearFromTime.
  set (d := Day t).
  set (below := if 0 <=? d then 1970 + d / 366 else 1970 + d / 365 - 1).
  set (fuel := (Z.to_nat (Z.abs d / 100000) + 8)%nat).
  assert (Z.of_nat fuel = Z.abs d / 100000 + 8) as Hfuel.
  { unfold fuel. rewrite Nat2Z.inj_add, Z2Nat.id; [done|]. apply Z.div_pos; lia. }
  assert (DayFromYear below <= d) as Hlo.
  { unfold below, DayFromYear.
    destruct (Z.leb_spec 0 d); Z.to_euclidean_division_equations; lia. }
  assert (d < DayFromYear (below + Z.of_nat fuel)) as Hhi.
  { rewrite Hfuel. unfold below, DayFromYear. destruct (Z.leb_spec 0 d).
    - rewrite Z.abs_eq by lia. Z.to_euclidean_division_equations. lia.
    - rewrite Z.abs_neq by lia. Z.to_euclidean_division_equations. lia. }
  pose proof (year_upwards_spec fuel below d Hlo Hhi) as Hyear.
  set (y := year_upwards fuel below d) in *. clearbody y. clear Hlo Hhi Hfuel.
  clearbody fuel below. unfold TimeFromYear.
  set (first := DayFromYear y) in *. set (next := DayFromYear (y + 1)) in *.
  clearbody first next. unfold d, Day, msPerDay in *.
  Z.to_euclidean_division_equations. lia.
Qed.

Lemma DayFromYear_increasing y y' : y < y' -> DayFromYear y < DayFromYear y'.
Proof. intros Hlt. unfold DayFromYear. Z.to_euclidean_division_equations. lia. Qed.

(** It is the largest year that has begun at that time. *)
Lemma YearFromTime_largest t y : TimeFromYear y <= t -> y <= YearFromTime t.
Proof.
  intros Hy. destruct (YearFromTime_spec t) as [_ Hnext].
  destruct (Z.le_gt_cases y (YearFromTime t)) as [|Hgt]; [done|exfalso].
  assert (DayFromYear (YearFromTime t + 1) <= DayFromYear y) as Hmono.
  { destruct (Z.eq_dec (YearFromTime t + 1) y) as [->|Hne]; [lia|].
    apply Z.lt_le_incl, DayFromYear_increasing. lia. }
  unfold TimeFromYear, msPerDay in *. lia.
Qed.

Lemma Day_of_local_midnight d off :
  - msPerDay < off < msPerDay ->
  Day (msPerDay * d + off) = d \/ Day (msPerDay * d + off) = d - 1.
Proof.
  intros Hoff. unfold Day.
  rewrite Z.add_comm, Z.mul_comm, Z.div_add by (unfold msPerDay; lia).
  pose proof (Z.div_mod off msPerDay) as Hdm.
  pose proof (Z.mod_pos_bound off msPerDay) as Hb.
  unfold msPerDay in *. lia.
Qed.

Section Year.
Context {P : Platform}.
Hypothesis zone : timezone_within_a_day.

Lemma Date_parse_1984 : Date_parse (js "1984-10-26") = Some (msPerDay * 5412).
Proof. reflexivity. Qed.

(** The date-only string of the specification's example falls in 1984 in
    every time zone, by the definition of YearFromTime. *)
Lemma local_time_1984 t :
  Date_parse (js "1984-10-26") = Some t ->
  TimeFromYear 1984 <= t + LocalTZA t < TimeFromYear 1985.
Proof.
  rewrite Date_parse_1984. intros [= <-].
  pose proof (zone (msPerDay * 5412)) as Hz.
  unfold TimeFromYear. replace (DayFromYear 1984) with 5113 by reflexivity.
  replace (DayFromYear 1985) with 5479 by reflexivity.
  unfold msPerDay in *. lia.
Qed.

Lemma getFullYear_1984 : getFullYear (Date_new (Some (js "1984-10-26"))) = Int 1984.
Proof.
  unfold Date_new. rewrite Date_parse_1984. unfold getFullYear, YearFromTime. f_equal.
  destruct (Day_of_local_midnight 5412 (LocalTZA (msPerDay * 5412)) (zone _)) as [-> | ->];
    reflexivity.
Qed.

End Year.

(* ================================================================== *)
(** * The formatter *)
(* ================================================================== *)

Lemma escapeRegExp_concat (l : list jsstring) :
  escapeRegExp (concat l) = concat (map escapeRegExp l).
Proof.
  induction l as [|x l IH]; [done|].
  cbn [concat map]. rewrite escapeRegExp_app, IH. reflexivity.
Qed.

Lemma fold_left_lines (l : list Service.t) (watch : jsstring) :
  fold_left (fun watch service => watch ++ Service.provider_name service ++ [LF]) l watch
  = watch ++ concat (map (fun service => Service.provider_name service ++ [LF]) l).
Proof.
  revert watch. induction l as [|s l IH]; intros watch; cbn [fold_left map concat].
  - by rewrite app_nil_r.
  - rewrite IH, <- !app_assoc. reflexivity.
Qed.

Section Formatter.
Context {P : Platform}.

Lemma watch_of_flatrate providers :
  Bot.watch_of providers =
  match us_flatrate providers with
  | Some flatrate =>
      js "Streaming on:" ++ [LF]
        ++ concat (map (fun service => Service.provider_name service ++ [LF]) flatrate)
  | None => []
  end.
Proof.
  unfold Bot.watch_of, us_flatrate.
  destruct (Providers.results providers) as [results|]; [|done].
  destruct (Regions.US results) as [US|]; [|done].
  destruct (Region.flatrate US) as [flatrate|]; [|done].
  rewrite fold_left_lines, <- app_assoc. reflexivity.
Qed.

Lemma title_is_header type result providers :
  InlineResult.title (Bot.inlineResult type result providers) = header_of type result.
Proof. reflexivity. Qed.

Lemma message_text_is_escaped type result providers :
  message_text_of (Bot.inlineResult type result providers) =
  escapeRegExp (header_of type result) ++ [BACKSLASH; LF; BACKSLASH; LF]
    ++ escapeRegExp (Bot.watch_of providers).
Proof.
  unfold message_text_of, Bot.inlineResult, header_of.
  cbn [InlineResult.input_message_content InputMessageContent.message_text].
  rewrite !escapeRegExp_app, <- !app_assoc. reflexivity.
Qed.

(** C5, as the code has it. When the US region of a title's provider data
    has a subscription-streaming list that is not empty, the message body is
    the escaped header, the two escaped line feeds, and the escaped block:
    [Streaming\ on:\] and a line feed, then each provider's escaped name
    followed by a backslash and a line feed. When the list is absent, the
    body is the escaped header and the two escaped line feeds, with no
    block. *)
Theorem streaming_block_is_escaped type result providers :
  (forall flatrate, us_flatrate providers = Some flatrate -> flatrate <> [] ->
     message_text_of (Bot.inlineResult type result providers) =
     escapeRegExp (header_of type result) ++ [BACKSLASH; LF; BACKSLASH; LF]
       ++ js "Streaming\ on:\" ++ [LF]
       ++ concat (map (fun service =>
                         escapeRegExp (Service.provider_name service) ++ [BACKSLASH; LF])
                    flatrate))
  /\ (us_flatrate providers = None ->
      message_text_of (Bot.inlineResult type result providers) =
      escapeRegExp (header_of type result) ++ [BACKSLASH; LF; BACKSLASH; LF]).
Proof.
  rewrite message_text_is_escaped, watch_of_flatrate. split.
  - intros flatrate -> _. do 2 f_equal.
    rewrite !escapeRegExp_app, escapeRegExp_concat, map_map.
    change (escapeRegExp (js "Streaming on:")) with (js "Streaming\ on:").
    change (escapeRegExp [LF]) with [BACKSLASH; LF].
    change (js "Streaming\ on:\") with (js "Streaming\ on:" ++ [BACKSLASH]).
    rewrite <- ?app_assoc. cbn [app]. do 4 f_equal.
    apply map_ext. intros s. rewrite escapeRegExp_app. reflexivity.
  - intros ->. rewrite escapeRegExp_nil, app_nil_r. reflexivity.
Qed.

Section Year_of.
Hypothesis zone : timezone_within_a_day.

(** C4, as the code has it. A result dated "1984-10-26" has the year 1984,
    and its title ends in [(1984)]. A result whose date is the empty string
    has no year ([undefined]); the template then spells the word out: the
    title ends in [(undefined)], and the message body has
    [\(undefined\)] in that place. *)
Theorem year_of_result type result providers :
  (Bot.date_of type result = Some (js "1984-10-26") ->
     Bot.year_of type result = Some (Int 1984)
     /\ InlineResult.title (Bot.inlineResult type result providers) =
        to_string (Bot.title_of type result) ++ js " (1984)")
  /\ (Bot.date_of type result = Some [] ->
      Bot.year_of type result = None
      /\ InlineResult.title (Bot.inlineResult type result providers) =
         to_string (Bot.title_of type result) ++ js " (undefined)"
      /\ message_text_of (Bot.inlineResult type result providers) =
         escapeRegExp (to_string (Bot.title_of type result)) ++ js "\ \(undefined\)"
           ++ [BACKSLASH; LF; BACKSLASH; LF] ++ escapeRegExp (Bot.watch_of providers)).
Proof.
  split.
  - intros Hdate.
    assert (Bot.year_of type result = Some (Int 1984)) as Hyear.
    { unfold Bot.year_of. rewrite Hdate. cbn [truthy_string js].
      rewrite <- (getFullYear_1984 zone). reflexivity. }
    split; [exact Hyear|].
    rewrite title_is_header. unfold header_of. rewrite Hyear. reflexivity.
  - intros Hdate.
    assert (Bot.year_of type result = None) as Hyear.
    { unfold Bot.year_of. rewrite Hdate. reflexivity. }
    split; [exact Hyear|]. split.
    + rewrite title_is_header. unfold header_of. rewrite Hyear. reflexivity.
    + rewrite message_text_is_escaped. unfold header_of. rewrite Hyear.
      rewrite escapeRegExp_app, <- app_assoc. reflexivity.
Qed.

End Year_of.
End Formatter.

Lemma example_zone : timezone_within_a_day (P := Example.scripted []).
Proof. intros t. cbn. unfold msPerDay. lia. Qed.

Lemma year_of_result_witness :
  Bot.year_of (P := Example.scripted []) movie Example.the_terminator = Some (Int 1984)
  /\ InlineResult.title
       (Bot.inlineResult (P := Example.scripted []) movie Example.the_terminator
          Example.netflix)
     = js "The Terminator (1984)"
  /\ Bot.year_of (P := Example.scripted []) movie Example.unreleased = None.
Proof.
  destruct (year_of_result (P := Example.scripted []) example_zone movie
              Example.the_terminator Example.netflix) as [H1 _].
  destruct (year_of_result (P := Example.scripted []) example_zone movie
              Example.unreleased Example.netflix) as [_ H2].
  destruct (H1 eq_refl) as [Ha Hb]. destruct (H2 eq_refl) as [Hc _].
  split; [exact Ha|]. split; [exact Hb|exact Hc].
Defined.

(** C4 as stated fails: the year of a result with an empty date is not
    rendered as [()]. *)
Lemma undefined_year_is_spelled_out :
  MediaResult.release_date Example.unreleased = Some []
  /\ InlineResult.title
       (Bot.inlineResult (P := Example.scripted []) movie Example.unreleased
          Example.no_flatrate)
     = js "Untitled Sequel (undefined)"
  /\ InlineResult.title
       (Bot.inlineResult (P := Example.scripted []) movie Example.unreleased
          Example.no_flatrate)
     <> js "Untitled Sequel ()"
  /\ message_text_of
       (Bot.inlineResult (P := Example.scripted []) movie Example.unreleased
          Example.no_flatrate)
     = js "Untitled\ Sequel\ \(undefined\)\" ++ [LF; BACKSLASH; LF].
Proof. repeat split; try reflexivity. vm_compute. discriminate. Qed.

Lemma streaming_block_is_escaped_witness :
  message_text_of
    (Bot.inlineResult (P := Example.scripted []) movie Example.the_terminator
       Example.netflix)
  = js "The\ Terminator\ \(1984\)\" ++ [LF; BACKSLASH; LF]
      ++ js "Streaming\ on:\" ++ [LF] ++ js "Netflix\" ++ [LF]
  /\ message_text_of
       (Bot.inlineResult (P := Example.scripted []) movie Example.the_terminator
          Example.no_region)
     = js "The\ Terminator\ \(1984\)\" ++ [LF; BACKSLASH; LF].
Proof.
  destruct (streaming_block_is_escaped (P := Example.scripted []) movie
              Example.the_terminator Example.netflix) as [H1 _].
  destruct (streaming_block_is_escaped (P := Example.scripted []) movie
              Example.the_terminator Example.no_region) as [_ H2].
  split.
  - rewrite (H1 _ eq_refl); [reflexivity|discriminate].
  - rewrite (H2 eq_refl). reflexivity.
Defined.

(** C5 as stated fails twice over: the body of a title streamed on Netflix
    does not end in the unescaped block, and a list that is present but
    empty still brings the heading of the block. *)
Lemma streaming_block_counterexample :
  ~ (js "Streaming on:" ++ [LF] ++ js "Netflix" ++ [LF]) `suffix_of`
      message_text_of
        (Bot.inlineResult (P := Example.scripted []) movie Example.the_terminator
           Example.netflix)
  /\ us_flatrate Example.empty_flatrate = Some []
  /\ message_text_of
       (Bot.inlineResult (P := Example.scripted []) movie Example.the_terminator
          Example.empty_flatrate)
     = js "The\ Terminator\ \(1984\)\" ++ [LF; BACKSLASH; LF]
         ++ js "Streaming\ on:\" ++ [LF].
Proof.
  split; [|split; reflexivity].
  intros [k Hk]. apply (f_equal reverse) in Hk.
  rewrite reverse_app in Hk. vm_compute in Hk. discriminate.
Qed.

(* ================================================================== *)
(** * Asynchronous functions: inversion and traces *)
(* ================================================================== *)

Section Async_facts.
Context {P : Platform}.

Lemma bind_Resolved {A B} (m : Async A) (k : A -> Async B) w b w' :
  bind m k w = (Resolved b, w') ->
  exists a w1, m w = (Resolved a, w1) /\ k a w1 = (Resolved b, w').
Proof.
  unfold bind. destruct (m w) as [[a|e|] w1]; intros Hk; try discriminate. eauto.
Qed.

Lemma bind_run {A B} (m : Async A) (k : A -> Async B) w a w1 :
  m w = (Resolved a, w1) -> bind m k w = k a w1.
Proof. unfold bind. intros ->. reflexivity. Qed.

Lemma bind_Rejected_l {A B} (m : Async A) (k : A -> Async B) w e w1 :
  m w = (Rejected e, w1) -> bind m k w = (Rejected e, w1).
Proof. unfold bind. intros ->. reflexivity. Qed.

Lemma requests_only_refl w : requests_only w w.
Proof. exists []. by rewrite app_nil_r. Qed.

Lemma requests_only_trans w1 w2 w3 :
  requests_only w1 w2 -> requests_only w2 w3 -> requests_only w1 w3.
Proof.
  intros [r1 H1] [r2 H2]. exists (r1 ++ r2).
  rewrite H2, H1, map_app, app_assoc. reflexivity.
Qed.

Lemma requests_only_at_clock_l t w w' :
  requests_only (at_clock t w) w' <-> requests_only w w'.
Proof. reflexivity. Qed.

Lemma requests_only_at_clock_r t w w' :
  requests_only w (at_clock t w') <-> requests_only w w'.
Proof. reflexivity. Qed.

Lemma requesting_ret {A} (a : A) : requesting (ret a).
Proof. intros w. split; [discriminate|apply requests_only_refl]. Qed.

Lemma requesting_throw {A} e : requesting (throw (A := A) e).
Proof. intros w. split; [discriminate|apply requests_only_refl]. Qed.

Lemma requesting_bind {A B} (m : Async A) (k : A -> Async B) :
  requesting m -> (forall a, requesting (k a)) -> requesting (bind m k).
Proof.
  intros Hm Hk w. unfold bind. destruct (Hm w) as [Hp Ht].
  destruct (m w) as [[a|e|] w1]; cbn in *;
    [|split; [discriminate|done]|split; [intros Ha; by destruct (Hp Ha)|exact Ht]].
  destruct (Hk a w1) as [Hp' Ht']. split; [done|].
  eapply requests_only_trans; eassumption.
Qed.

(** The promise of [fetch] is left pending by an unanswered request, and
    by nothing else. *)
Lemma on_response_Pending {A} `{FromJSON A} res :
  on_response (A := A) res = Pending <-> res = NoAnswer.
Proof.
  destruct res as [code body|e|]; [rewrite on_response_Reply| |]; cbn;
    [destruct (JSON_parse body)| |]; done.
Qed.

Lemma on_response_settles {A} `{FromJSON A} res :
  res <> NoAnswer -> on_response (A := A) res <> Pending.
Proof. intros Hres Hp. by apply on_response_Pending in Hp. Qed.

Lemma requesting_Bot_fetch {A} `{FromJSON A} url : requesting (Bot.fetch (A := A) url).
Proof.
  intros w. split; [intros Hanswering; apply on_response_settles, Hanswering|].
  eexists [_]. reflexivity.
Qed.

(* ------------------------------------------------------------------ *)
(** ** [Promise.all] keeps positions *)
(* ------------------------------------------------------------------ *)

Lemma deliver_length {A} (arrived : list (nat * (nat * Outcome A))) values now values' t :
  deliver arrived values now = (Resolved values', t) -> length values' = length values.
Proof.
  revert values now. induction arrived as [|[t0 [i [v|e|]]] rest IH]; intros values now; cbn.
  - by intros [= <- _].
  - intros Hd. apply IH in Hd. by rewrite length_insert in Hd.
  - discriminate.
  - apply IH.
Qed.

(** A stored value was there before, or came with an arrival for its index. *)
Lemma deliver_origin {A} (arrived : list (nat * (nat * Outcome A))) values now values' t j v :
  deliver arrived values now = (Resolved values', t) ->
  values' !! j = Some (Some v) ->
  values !! j = Some (Some v) \/ exists t', (t', (j, Resolved v)) ∈ arrived.
Proof.
  revert values now. induction arrived as [|[t0 [i [v0|e|]]] rest IH]; intros values now; cbn.
  - intros [= <- _]. by left.
  - intros Hd Hj. destruct (IH _ _ Hd Hj) as [Hin|[t' Hin]].
    + destruct (decide (i = j)) as [->|Hne].
      * right. exists t0. apply lookup_lt_Some in Hin as Hlt. rewrite length_insert in Hlt.
        rewrite list_lookup_insert_eq in Hin by done. injection Hin as [= ->]. left.
      * left. by rewrite list_lookup_insert_ne in Hin.
    + right. exists t'. by right.
  - discriminate.
  - intros Hd Hj. destruct (IH _ _ Hd Hj) as [Hin|[t' Hin]]; [by left|].
    right. exists t'. by right.
Qed.

(** When the whole resolves, no arrival was a rejection, and every arrival
    with a value left its slot filled. *)
Lemma deliver_filled {A} (arrived : list (nat * (nat * Outcome A))) values now values' t :
  deliver arrived values now = (Resolved values', t) ->
  (forall x e, x ∈ arrived -> x.2.2 <> Rejected e)
  /\ (forall j, (exists v, values !! j = Some (Some v))
                \/ (j < length values)%nat /\ (exists t' v, (t', (j, Resolved v)) ∈ arrived) ->
                exists v, values' !! j = Some (Some v)).
Proof.
  revert values now. induction arrived as [|[t0 [i [v0|e|]]] rest IH]; intros values now; cbn.
  - intros [= <- _]. split.
    + intros x e Hx. by apply elem_of_nil in Hx.
    + intros j [Hv|[_ (t' & v & Hin)]]; [done|]. by apply elem_of_nil in Hin.
  - intros Hd. destruct (IH _ _ Hd) as [Hrej Hfill]. split.
    + intros x e [->|Hx]%elem_of_cons; [discriminate|by apply Hrej].
    + intros j Hj. apply Hfill. rewrite length_insert.
      destruct (decide (i = j)) as [->|Hne].
      * destruct Hj as [[v Hv]|[Hlt _]]; left.
        -- apply lookup_lt_Some in Hv as Hlt. exists v0. by apply list_lookup_insert_eq.
        -- exists v0. by apply list_lookup_insert_eq.
      * destruct Hj as [[v Hv]|[Hlt (t' & v & Hin)]].
        -- left. exists v. by rewrite list_lookup_insert_ne.
        -- apply elem_of_cons in Hin as [Heq|Hin]; [congruence|]. right. eauto.
  - discriminate.
  - intros Hd. destruct (IH _ _ Hd) as [Hrej Hfill]. split.
    + intros x e [->|Hx]%elem_of_cons; [discriminate|by apply Hrej].
    + intros j [Hv|[Hlt (t' & v & Hin)]]; apply Hfill; [by left|].
      apply elem_of_cons in Hin as [Heq|Hin]; [congruence|]. right. eauto.
Qed.

Lemma deliver_settles {A} (arrived : list (nat * (nat * Outcome A))) values now :
  (deliver arrived values now).1 <> Pending.
Proof.
  revert values now. induction arrived as [|[t0 [i [v0|e|]]] rest IH]; intros values now; cbn;
    try done; apply IH.
Qed.

Lemma elem_of_arrivals {A} (timed : list (nat * Outcome A)) t i o :
  (t, (i, o)) ∈ arrivals timed <-> timed !! i = Some (t, o).
Proof.
  unfold arrivals. rewrite merge_sort_Permutation, elem_of_lookup_imap. split.
  - intros (i' & [t' o'] & [= -> -> ->] & Hl). done.
  - intros Hl. exists i, (t, o). done.
Qed.

(** If [Promise.all] resolves, every branch had resolved, and the value at
    each position is the value of the branch at that position, whenever the
    branches settled. *)
Lemma Promise_all_settle_Resolved {A} (timed : list (nat * Outcome A)) start vs t :
  Promise_all_settle timed start = (Resolved vs, t) ->
  Forall2 (fun to v => to.2 = Resolved v) timed vs.
Proof.
  unfold Promise_all_settle.
  destruct (deliver _ _ _) as [[values| |] t'] eqn:Hd; try discriminate.
  destruct (mapM _ values) as [vs'|] eqn:Hm; [|discriminate]. intros [= -> ->].
  apply mapM_Some in Hm. apply deliver_length in Hd as Hlen.
  rewrite length_replicate in Hlen.
  apply Forall2_same_length_lookup. split.
  { apply Forall2_length in Hm. lia. }
  intros j [tj oj] v Htimed Hv. cbn.
  destruct (Forall2_lookup_r _ _ _ _ _ Hm Hv) as (x & Hx & ->).
  destruct (deliver_origin _ _ _ _ _ _ _ Hd Hx) as [Hin|[t'' Hin]].
  - apply lookup_replicate in Hin as [? _]. done.
  - apply elem_of_arrivals in Hin. congruence.
Qed.

(** If every branch settles, so does [Promise.all]. *)
Lemma Promise_all_settle_settles {A} (timed : list (nat * Outcome A)) start :
  Forall (fun to => to.2 <> Pending) timed ->
  (Promise_all_settle timed start).1 <> Pending.
Proof.
  intros Hall. unfold Promise_all_settle.
  destruct (deliver _ _ _) as [[values|e|] t'] eqn:Hd; cbn; try done.
  - destruct (mapM _ values) as [vs'|] eqn:Hm; [done|]. exfalso.
    apply deliver_length in Hd as Hlen. rewrite length_replicate in Hlen.
    destruct (deliver_filled _ _ _ _ _ Hd) as [Hrej Hfill].
    assert (is_Some (mapM (fun v => v) values)) as [? ?]; [|congruence].
    apply mapM_is_Some. apply Forall_lookup. intros j x Hx.
    apply lookup_lt_Some in Hx as Hlt. rewrite Hlen in Hlt.
    destruct (lookup_lt_is_Some_2 timed j Hlt) as [[tj oj] Hj].
    destruct (Hfill j) as [v Hv].
    { right. rewrite length_replicate. split; [done|].
      apply elem_of_arrivals in Hj as Hin.
      rewrite Forall_lookup in Hall. specialize (Hall _ _ Hj). cbn in Hall.
      destruct oj as [v|e|]; [eauto| |done].
      destruct (Hrej _ e Hin). reflexivity. }
    rewrite Hv in Hx. injection Hx as <-. cbn. eauto.
  - pose proof (deliver_settles (arrivals timed) (replicate (length timed) None) start) as Hs.
    rewrite Hd in Hs. done.
Qed.

(** A rejection of the whole is the rejection of one of the arrivals. *)
Lemma deliver_Rejected {A} (arrived : list (nat * (nat * Outcome A))) values now e t :
  deliver arrived values now = (Rejected e, t) ->
  exists i, (t, (i, Rejected e)) ∈ arrived.
Proof.
  revert values now. induction arrived as [|[t0 [i [v0|e0|]]] rest IH]; intros values now; cbn.
  - discriminate.
  - intros [j Hj]%IH. exists j. by right.
  - intros [= -> ->]. exists i. left.
  - intros [j Hj]%IH. exists j. by right.
Qed.

(** If every branch resolved, [Promise.all] resolves with the values of the
    branches in the order of the branches, whatever the times at which they
    arrived. *)
Lemma Promise_all_settle_all_resolved {A} (timed : list (nat * Outcome A)) vs start :
  Forall2 (fun to v => to.2 = Resolved v) timed vs ->
  (Promise_all_settle timed start).1 = Resolved vs.
Proof.
  intros Hall.
  assert (Forall (fun to => to.2 <> Pending) timed) as Hsettled.
  { eapply Forall2_Forall_l; [exact Hall|]. apply Forall_forall.
    intros v _ to ->. discriminate. }
  pose proof (Promise_all_settle_settles timed start Hsettled) as Hp.
  destruct (Promise_all_settle timed start) as [[vs'|e|] t] eqn:Hs; cbn in *; [| |done].
  - f_equal. apply Promise_all_settle_Resolved in Hs. clear Hp Hsettled.
    revert vs' Hs. induction Hall as [|to v timed vs Hv _ IH]; intros vs' Hs;
      inversion Hs as [|? v' ? vs'' Hv' Hrest]; subst; [done|].
    f_equal; [congruence|by apply IH].
  - exfalso. unfold Promise_all_settle in Hs.
    destruct (deliver _ _ _) as [[values|e'|] t'] eqn:Hd; [| |discriminate].
    + destruct (mapM _ values); discriminate.
    + injection Hs as -> ->. apply deliver_Rejected in Hd as [i Hi].
      apply elem_of_arrivals in Hi.
      destruct (Forall2_lookup_l _ _ _ _ _ Hall Hi) as (v & _ & Hv). discriminate.
Qed.

(** What [start_all] records, branch by branch. *)
Lemma start_all_Forall2 {A} (branches : list (Async A)) start w timed w' :
  start_all branches start w = (timed, w') ->
  Forall2 (fun p to => exists w1 w2, p (at_clock start w1) = (to.2, w2) /\ clock w2 = to.1)
    branches timed.
Proof.
  revert w timed w'. induction branches as [|p rest IH]; intros w timed w'; cbn.
  - intros [= <- _]. constructor.
  - destruct (p (at_clock start w)) as [o w1] eqn:Hp.
    destruct (start_all rest start w1) as [os w2] eqn:Hrest.
    intros [= <- <-]. constructor; [|by eapply IH].
    exists w, w1. done.
Qed.

Lemma start_all_requesting {A} (branches : list (Async A)) start w :
  Forall requesting branches ->
  (answering -> Forall (fun to => to.2 <> Pending) (start_all branches start w).1)
  /\ requests_only w (start_all branches start w).2.
Proof.
  intros Hall. revert w. induction Hall as [|p rest Hp _ IH]; intros w; cbn.
  - split; [constructor|apply requests_only_refl].
  - destruct (Hp (at_clock start w)) as [Hs Ht].
    destruct (p (at_clock start w)) as [o w1] eqn:Hpw.
    destruct (IH w1) as [Hs' Ht'].
    destruct (start_all rest start w1) as [os w2] eqn:Hrest. cbn in *.
    split; [intros Ha; constructor; [by apply Hs|by apply Hs']|].
    eapply requests_only_trans; eassumption.
Qed.

Lemma requesting_Promise_all {A} (branches : list (Async A)) :
  Forall requesting branches -> requesting (Promise_all branches).
Proof.
  intros Hall w. unfold Promise_all.
  destruct (start_all_requesting branches (clock w) w Hall) as [Hs Ht].
  destruct (start_all branches (clock w) w) as [timed w1] eqn:Hst. cbn in *.
  pose proof (fun Ha => Promise_all_settle_settles timed (clock w) (Hs Ha)) as Hp.
  destruct (Promise_all_settle timed (clock w)) as [o t]. cbn in *. done.
Qed.

(** [Promise.all] on the images of a list: when it resolves, each value is
    the value its own element's branch resolved with. *)
Lemma Promise_all_map_Resolved {A B} (f : A -> Async B) (l : list A) w vs w' :
  Promise_all (map f l) w = (Resolved vs, w') ->
  Forall2 (fun a v => exists w1 w2, f a w1 = (Resolved v, w2)) l vs.
Proof.
  unfold Promise_all.
  destruct (start_all (map f l) (clock w) w) as [timed w1] eqn:Hst.
  destruct (Promise_all_settle timed (clock w)) as [o t] eqn:Hset.
  intros [= -> <-].
  apply start_all_Forall2 in Hst. apply Promise_all_settle_Resolved in Hset.
  apply Forall2_fmap_l in Hst.
  revert vs Hset. induction Hst as [|a [ta oa] l timed (wa & wb & Ha & _) _ IH];
    intros vs Hset; inversion Hset as [|? v ? vs' Hv Hrest]; subst; constructor.
  - cbn in *. subst. eauto.
  - by apply IH.
Qed.

End Async_facts.

(* ================================================================== *)
(** * The inline results *)
(* ================================================================== *)

Section Inline_results.
Context {P : Platform}.

Lemma has_true {A} (o : option A) : has o = true <-> is_Some o.
Proof.
  destruct o; cbn; split; intros Ho; first [done|eauto].
Qed.

Lemma candidates_spec type results r :
  r ∈ candidates type results <->
  r ∈ take 10 results /\ is_Some (variant_field type r).
Proof.
  unfold candidates. rewrite list_elem_of_filter.
  unfold Bot.filter_callback, variant_field. destruct type; rewrite has_true; tauto.
Qed.

Lemma candidates_sublist type results : candidates type results `sublist_of` results.
Proof.
  unfold candidates. etrans; [apply sublist_filter|apply sublist_take].
Qed.

Lemma formats_id type r o : formats type r o -> InlineResult.id o = MediaResult.id r.
Proof. intros [providers ->]. reflexivity. Qed.

Lemma formats_ids type rs os :
  Forall2 (formats type) rs os -> map InlineResult.id os = map MediaResult.id rs.
Proof.
  induction 1 as [|r o rs os Hf _ IH]; [done|].
  cbn. rewrite IH, (formats_id _ _ _ Hf). reflexivity.
Qed.

Lemma requesting_mediaQuery query type page : requesting (Bot.mediaQuery query type page).
Proof.
  unfold Bot.mediaQuery. destruct type; unfold Bot.movieQuery, Bot.tvQuery;
    (apply requesting_bind; [apply requesting_Bot_fetch|intros; apply requesting_ret]).
Qed.

Lemma requesting_map_callback type result : requesting (Bot.map_callback type result).
Proof.
  unfold Bot.map_callback. apply requesting_bind; [|intros; apply requesting_ret].
  apply requesting_Bot_fetch.
Qed.

Lemma requesting_getInlineResultsMap query type :
  requesting (Bot.getInlineResultsMap query type).
Proof.
  unfold Bot.getInlineResultsMap. apply requesting_bind; [apply requesting_mediaQuery|].
  intros search. destruct (Search.results search) as [results|]; [|apply requesting_ret].
  apply requesting_bind; [|intros; apply requesting_ret].
  apply requesting_Promise_all. apply Forall_fmap, Forall_forall.
  intros r _. apply requesting_map_callback.
Qed.

Lemma requesting_getInlineResults query : requesting (Bot.getInlineResults query).
Proof.
  unfold Bot.getInlineResults.
  apply requesting_bind; [apply requesting_getInlineResultsMap|]. intros movies.
  apply requesting_bind; [apply requesting_getInlineResultsMap|]. intros tvs.
  destruct movies, tvs; first [apply requesting_ret|apply requesting_throw].
Qed.

Lemma map_callback_Resolved type result w o w' :
  Bot.map_callback type result w = (Resolved o, w') -> formats type result o.
Proof.
  unfold Bot.map_callback. intros (providers & w1 & _ & [= <- _])%bind_Resolved.
  by exists providers.
Qed.


Lemma getInlineResultsMap_Resolved query type w out w' :
  Bot.getInlineResultsMap query type w = (Resolved (Some out), w') ->
  exists search w1 results,
    Bot.mediaQuery query type 1 w = (Resolved search, w1)
    /\ Search.results search = Some results
    /\ Forall2 (formats type) (candidates type results) out.
Proof.
  unfold Bot.getInlineResultsMap. intros (search & w1 & Hq & Hk)%bind_Resolved.
  destruct (Search.results search) as [results|] eqn:Hr; [|discriminate].
  apply bind_Resolved in Hk as (all & w2 & Hall & [= <- _]).
  exists search, w1, results. split; [done|]. split; [done|].
  apply Promise_all_map_Resolved in Hall.
  eapply Forall2_impl; [exact Hall|].
  intros r o (wa & wb & Hcb). by eapply map_callback_Resolved.
Qed.

Lemma getInlineResults_Resolved query w out w' :
  Bot.getInlineResults query w = (Resolved out, w') ->
  exists movies w1 tvs,
    Bot.getInlineResultsMap query movie w = (Resolved (Some movies), w1)
    /\ Bot.getInlineResultsMap query tv w1 = (Resolved (Some tvs), w')
    /\ out = movies ++ tvs.
Proof.
  unfold Bot.getInlineResults. intros (movies & w1 & Hm & Hk)%bind_Resolved.
  apply bind_Resolved in Hk as (tvs & w2 & Ht & Hk).
  destruct movies as [movies|], tvs as [tvs|]; try discriminate.
  injection Hk as <- <-. eauto 10.
Qed.

(** C9. Every formatted result that [getInlineResultsMap] returns comes from
    a raw result, among the first ten of the search, that has the field of
    its variant ([title] for movie, [name] for tv): the returned list is,
    position by position, the formatting of the first-ten results that have
    the field, so that a result without it has no place in the list. *)
Theorem inline_results_have_the_variant_field query type w out w' :
  Bot.getInlineResultsMap query type w = (Resolved (Some out), w') ->
  exists search w1 results,
    Bot.mediaQuery query type 1 w = (Resolved search, w1)
    /\ Search.results search = Some results
    /\ Forall2 (formats type) (candidates type results) out
    /\ (forall r, r ∈ candidates type results <->
                  r ∈ take 10 results /\ is_Some (variant_field type r))
    /\ (forall o, o ∈ out ->
          exists r, r ∈ take 10 results /\ is_Some (variant_field type r)
                    /\ formats type r o).
Proof.
  intros (search & w1 & results & Hq & Hr & Hf)%getInlineResultsMap_Resolved.
  exists search, w1, results. do 3 (split; [done|]).
  split; [intros r; apply candidates_spec|].
  intros o Ho. apply list_elem_of_lookup in Ho as [i Ho].
  destruct (Forall2_lookup_r _ _ _ _ _ Hf Ho) as (r & Hri & Hro).
  exists r. apply list_elem_of_lookup_2, candidates_spec in Hri as [? ?]. done.
Qed.

(** C2. When [getInlineResults] returns a list, both searches had succeeded,
    and the list is the formatted movie results followed by the formatted tv
    results; each group follows, position by position, the raw results of
    its search that reached the formatter, which stand in the order of the
    search response. The order is that of the positions and not of the
    completions: when its branches have all resolved, [Promise.all] resolves
    with their values in the order of the branches, whatever the times at
    which the answers arrived. *)
Theorem inline_results_keep_the_order query w :
  (forall out w',
     Bot.getInlineResults query w = (Resolved out, w') ->
     exists movie_search wa movie_results movies w1 tv_search wb tv_results tvs,
       Bot.mediaQuery query movie 1 w = (Resolved movie_search, wa)
       /\ Search.results movie_search = Some movie_results
       /\ Bot.getInlineResultsMap query movie w = (Resolved (Some movies), w1)
       /\ Bot.mediaQuery query tv 1 w1 = (Resolved tv_search, wb)
       /\ Search.results tv_search = Some tv_results
       /\ Bot.getInlineResultsMap query tv w1 = (Resolved (Some tvs), w')
       /\ out = movies ++ tvs
       /\ Forall2 (formats movie) (candidates movie movie_results) movies
       /\ Forall2 (formats tv) (candidates tv tv_results) tvs
       /\ candidates movie movie_results `sublist_of` movie_results
       /\ candidates tv tv_results `sublist_of` tv_results
       /\ map InlineResult.id out =
          map MediaResult.id (candidates movie movie_results)
            ++ map MediaResult.id (candidates tv tv_results))
  /\ (forall (timed : list (nat * Outcome InlineResult.t)) values start,
        Forall2 (fun to v => to.2 = Resolved v) timed values ->
        (Promise_all_settle timed start).1 = Resolved values).
Proof.
  split; [|intros; by apply Promise_all_settle_all_resolved].
  intros out w' (movies & w1 & tvs & Hm & Ht & ->)%getInlineResults_Resolved.
  destruct (getInlineResultsMap_Resolved _ _ _ _ _ Hm) as (sm & wa & ms & Hqm & Hrm & Hfm).
  destruct (getInlineResultsMap_Resolved _ _ _ _ _ Ht) as (st & wb & ts & Hqt & Hrt & Hft).
  exists sm, wa, ms, movies, w1, st, wb, ts, tvs.
  repeat split; try done; try apply candidates_sublist.
  rewrite map_app, (formats_ids _ _ _ Hfm), (formats_ids _ _ _ Hft). reflexivity.
Qed.

(** C6. When the combined list is empty the handler emits nothing: the world
    is as [getInlineResults] left it, in which only requests were added to
    the trace. When the list is not empty the handler adds one call of the
    answer API, with that list and [cache_time] 0. *)
Theorem answer_only_when_there_are_results inlineQuery w results w1 :
  Bot.getInlineResults (InlineQuery.query inlineQuery) w = (Resolved results, w1) ->
  requests_only w w1
  /\ (results = [] -> Bot.on_inline_query inlineQuery w = (Resolved tt, w1))
  /\ (results <> [] ->
      Bot.on_inline_query inlineQuery w =
      (Resolved tt,
       after_events [AnswerInlineQuery (InlineQuery.id inlineQuery) results 0] w1)).
Proof.
  intros Hr. split; [|split].
  - pose proof (requesting_getInlineResults (InlineQuery.query inlineQuery) w) as [_ Ht].
    by rewrite Hr in Ht.
  - intros ->. unfold Bot.on_inline_query. rewrite (bind_run _ _ _ _ _ Hr). reflexivity.
  - intros Hne. unfold Bot.on_inline_query. rewrite (bind_run _ _ _ _ _ Hr).
    destruct results; [done|]. reflexivity.
Qed.


End Inline_results.

(* ================================================================== *)
(** * The provider catalog cache *)
(* ================================================================== *)

Section Cache.
Context {P : Platform}.

Lemma getWatchProviders_present type w value :
  WATCH_PROVIDERS w !! type = Some value ->
  Bot.getWatchProviders type w = (Resolved (Some value), w).
Proof.
  intros Hv. unfold Bot.getWatchProviders, bind, Bot.WATCH_PROVIDERS_has,
    Bot.WATCH_PROVIDERS_get, ret.
  rewrite bool_decide_eq_true_2 by (rewrite Hv; eauto). cbn. by rewrite Hv.
Qed.

Lemma getWatchProviders_absent type w :
  WATCH_PROVIDERS w !! type = None ->
  Bot.getWatchProviders type w =
  match Bot.fetch (Bot.watchProvidersUrl type) w with
  | (Resolved value, w1) =>
      (Resolved (Some value),
       {| trace := trace w1; clock := clock w1; stdin := stdin w1;
          WATCH_PROVIDERS := <[type := value]> (WATCH_PROVIDERS w) |})
  | (Rejected e, w1) => (Rejected e, w1)
  | (Pending, w1) => (Pending, w1)
  end.
Proof.
  intros Hv. unfold Bot.getWatchProviders, bind, Bot.WATCH_PROVIDERS_has,
    Bot.WATCH_PROVIDERS_get, Bot.WATCH_PROVIDERS_set, ret.
  rewrite bool_decide_eq_false_2 by (rewrite Hv; apply is_Some_None). cbn.
  destruct (on_response _) as [value|e|]; cbn; [|done..].
  by rewrite lookup_insert_eq.
Qed.

Lemma getWatchProviders_keeps type' w type value :
  WATCH_PROVIDERS w !! type = Some value ->
  WATCH_PROVIDERS (Bot.getWatchProviders type' w).2 !! type = Some value.
Proof.
  intros Hv. destruct (WATCH_PROVIDERS w !! type') as [value'|] eqn:Hv'.
  - by rewrite (getWatchProviders_present _ _ _ Hv').
  - rewrite (getWatchProviders_absent _ _ Hv'). unfold Bot.fetch.
    destruct (on_response _) as [v|e|]; cbn; [|done..].
    rewrite lookup_insert_ne; [done|]. congruence.
Qed.

(** C7, as the code has it. For calls of [getWatchProviders] that do not
    overlap: a call for a type whose entry exists returns the stored value
    and leaves the world as it was (no request, no write); a call for a type
    with no entry makes one request and, when it is answered with a
    catalog, stores it and returns it; when the request fails nothing is
    stored; and an entry, once there, stays what it is through any number
    of further calls. *)
Theorem provider_cache_entries_are_kept type w :
  (forall value, WATCH_PROVIDERS w !! type = Some value ->
     Bot.getWatchProviders type w = (Resolved (Some value), w))
  /\ (forall value w1,
        WATCH_PROVIDERS w !! type = None ->
        Bot.fetch (Bot.watchProvidersUrl type) w = (Resolved value, w1) ->
        Bot.getWatchProviders type w =
        (Resolved (Some value),
         {| trace := trace w1; clock := clock w1; stdin := stdin w1;
            WATCH_PROVIDERS := <[type := value]> (WATCH_PROVIDERS w) |})
        /\ trace w1 =
           trace w ++ [HttpsGet {| Request.url := Bot.watchProvidersUrl type;
                                   Request.headers := fetch_options TMDB_TOKEN |}])
  /\ (forall e w1,
        WATCH_PROVIDERS w !! type = None ->
        Bot.fetch (A := Catalog) (Bot.watchProvidersUrl type) w = (Rejected e, w1) ->
        Bot.getWatchProviders type w = (Rejected e, w1)
        /\ WATCH_PROVIDERS w1 = WATCH_PROVIDERS w)
  /\ (forall calls value,
        WATCH_PROVIDERS w !! type = Some value ->
        WATCH_PROVIDERS (consecutive_calls calls w) !! type = Some value).
Proof.
  split; [intros; by apply getWatchProviders_present|]. split; [|split].
  - intros value w1 Hv Hf. rewrite (getWatchProviders_absent _ _ Hv), Hf.
    split; [done|]. by injection Hf as _ <-.
  - intros e w1 Hv Hf. rewrite (getWatchProviders_absent _ _ Hv), Hf.
    split; [done|]. by injection Hf as _ <-.
  - intros calls. revert w. induction calls as [|type' calls IH]; intros w value Hv; [done|].
    cbn. apply IH. by apply getWatchProviders_keeps.
Qed.

End Cache.

Lemma provider_cache_entries_are_kept_witness :
  Bot.getWatchProviders (P := Example.scripted [Example.ok "catalog A"]) movie
    (Example.start []) =
  (Resolved (Some (js "catalog A")),
   {| trace := [HttpsGet {| Request.url := Bot.watchProvidersUrl movie;
                            Request.headers := fetch_options (Some (js "token")) |}];
      clock := 100; stdin := [];
      WATCH_PROVIDERS := <[movie := js "catalog A"]> ∅ |})
  /\ WATCH_PROVIDERS
       (consecutive_calls (P := Example.scripted [Example.ok "catalog A"])
          [movie; tv; movie]
          (Bot.getWatchProviders (P := Example.scripted [Example.ok "catalog A"]) movie
             (Example.start [])).2)
     !! movie = Some (js "catalog A").
Proof.
  destruct (provider_cache_entries_are_kept
              (P := Example.scripted [Example.ok "catalog A"]) movie (Example.start []))
    as (_ & H2 & _ & _).
  destruct (H2 (js "catalog A") _ eq_refl eq_refl) as [Hrun _].
  split; [exact Hrun|].
  destruct (provider_cache_entries_are_kept
              (P := Example.scripted [Example.ok "catalog A"]) movie
              (Bot.getWatchProviders (P := Example.scripted [Example.ok "catalog A"]) movie
                 (Example.start [])).2)
    as (_ & _ & _ & H4).
  apply H4. rewrite Hrun. apply lookup_insert_eq.
Defined.

(** C7 as stated fails. A second call made while the first awaits its answer
    finds no entry either: both calls make a request and both write, and the
    entry the first call wrote is replaced by the second. And when the
    request of a first call fails, the call after it makes a request again. *)
Lemma provider_cache_counterexample :
  (Bot.getWatchProviders_overlapping
     (P := Example.scripted [Example.ok "catalog A"; Example.ok "catalog B"])
     movie (Example.start [])).1
  = (Resolved (Some (js "catalog A")), Resolved (Some (js "catalog B")))
  /\ (Bot.getWatchProviders_overlapping
        (P := Example.scripted [Example.ok "catalog A"; Example.ok "catalog B"])
        movie (Example.start [])).2.1 !! movie = Some (js "catalog A")
  /\ WATCH_PROVIDERS
       (Bot.getWatchProviders_overlapping
          (P := Example.scripted [Example.ok "catalog A"; Example.ok "catalog B"])
          movie (Example.start [])).2.2 !! movie = Some (js "catalog B")
  /\ Example.requests_so_far
       (trace
          (Bot.getWatchProviders_overlapping
             (P := Example.scripted [Example.ok "catalog A"; Example.ok "catalog B"])
             movie (Example.start [])).2.2) = 2%nat
  /\ (Bot.getWatchProviders
        (P := Example.scripted [RequestError (js "ECONNRESET"); Example.ok "catalog A"])
        movie (Example.start [])).1
     = Rejected (NetworkError (js "ECONNRESET"))
  /\ Example.requests_so_far
       (trace
          (consecutive_calls
             (P := Example.scripted [RequestError (js "ECONNRESET"); Example.ok "catalog A"])
             [movie; movie] (Example.start []))) = 2%nat.
Proof. repeat split; vm_compute; reflexivity. Qed.

(* ================================================================== *)
(** * The interactive search flow *)
(* ================================================================== *)

Lemma js_inj s1 s2 : js s1 = js s2 -> s1 = s2.
Proof.
  revert s2. induction s1 as [|a s1 IH]; intros [|b s2]; cbn; try done.
  intros [= Hab Hs]. f_equal; [|by apply IH].
  rewrite <- (ascii_N_embedding a), <- (ascii_N_embedding b). by rewrite Hab.
Qed.

(** Two integers with the same decimal writing are the same. *)
Lemma Number_toString_inj a b : Number_toString a = Number_toString b -> a = b.
Proof.
  unfold Number_toString. intros Hs%js_inj.
  assert (Some (Z.to_int a) = Some (Z.to_int b)) as [= Hi].
  { by rewrite <- !NilEmpty.isi, Hs. }
  by rewrite <- (DecimalZ.of_to a), <- (DecimalZ.of_to b), Hi.
Qed.

Section Interactive.
Context {P : Platform}.

Lemma after_events_app l1 l2 w :
  after_events l2 (after_events l1 w) = after_events (l1 ++ l2) w.
Proof. unfold after_events. cbn. by rewrite app_assoc. Qed.

Lemma after_events_nil w : after_events [] w = w.
Proof. destruct w. unfold after_events. cbn. by rewrite app_nil_r. Qed.

(** What the [forEach] leaves: the numbers pushed, a line written for each
    result, and a map that takes the number of each result to it and is
    otherwise as before. *)
Lemma forEach_result_run results : forall index validChoices resultsMap w,
  exists resultsMap',
    Cli.forEach_result results index validChoices resultsMap w =
    (Resolved
       (validChoices ++ imap (fun k _ => to_string (index + Z.of_nat k + 1)) results,
        resultsMap'),
     after_events
       (imap (fun k r => StdoutWrite (Cli.option_line (index + Z.of_nat k) r)) results) w)
    /\ (forall k r, results !! k = Some r ->
          resultsMap' !! to_string (index + Z.of_nat k + 1) = Some r)
    /\ (forall key,
          (forall k, (k < length results)%nat -> key <> to_string (index + Z.of_nat k + 1)) ->
          resultsMap' !! key = resultsMap !! key).
Proof.
  induction results as [|result rest IH]; intros index validChoices resultsMap w.
  - exists resultsMap. cbn. rewrite app_nil_r, after_events_nil. repeat split; done.
  - cbn [Cli.forEach_result]. unfold emit, bind.
    destruct (IH (index + 1) (validChoices ++ [to_string (index + 1)])
                (<[to_string (index + 1) := result]> resultsMap)
                (after_events [StdoutWrite (Cli.option_line index result)] w))
      as (resultsMap' & Hrun & Hin & Hout).
    exists resultsMap'. split; [|split].
    + rewrite Hrun, after_events_app, <- app_assoc. cbn [imap app].
      rewrite Z.add_0_r.
      rewrite (imap_ext ((fun k (_ : MediaResult.t) => to_string (index + Z.of_nat k + 1)) ∘ S)
                 (fun k _ => to_string (index + 1 + Z.of_nat k + 1)))
        by (intros; cbn; f_equal; lia).
      rewrite (imap_ext ((fun k r => StdoutWrite (Cli.option_line (index + Z.of_nat k) r)) ∘ S)
                 (fun k r => StdoutWrite (Cli.option_line (index + 1 + Z.of_nat k) r)))
        by (intros; cbn; do 2 f_equal; lia).
      reflexivity.
    + intros [|k] r Hk.
      * injection Hk as ->. rewrite Z.add_0_r, Hout; [apply lookup_insert_eq|].
        intros k _ Heq%Number_toString_inj. lia.
      * replace (index + Z.of_nat (S k) + 1) with (index + 1 + Z.of_nat k + 1) by lia.
        by apply Hin.
    + intros key Hkey. rewrite Hout.
      * apply lookup_insert_ne. intros <-. apply (Hkey 0%nat); [cbn; lia|].
        by rewrite Z.add_0_r.
      * intros k Hk. replace (index + 1 + Z.of_nat k + 1) with (index + Z.of_nat (S k) + 1) by lia.
        apply Hkey. cbn. lia.
Qed.

(** [getAnswerFromUser] with the extra option on offer: the menu is
    written, the user is asked, and the answer is looked up among the
    results. *)
Lemma getAnswerFromUser_with_more results w :
  exists resultsMap : gmap jsstring MediaResult.t,
    Cli.getAnswerFromUser (Some results) true w =
    match Cli.handleUserInput (js "Pick an option: ") (choices_with_more results)
            (menu_with_more results w) with
    | (Resolved choice, w2) => (Resolved (MediaResult.id <$> resultsMap !! choice), w2)
    | (Rejected e, w2) => (Rejected e, w2)
    | (Pending, w2) => (Pending, w2)
    end
    /\ (forall k r, results !! k = Some r ->
          resultsMap !! to_string (Z.of_nat k + 1) = Some r)
    /\ resultsMap !! to_string (Z.of_nat (length results) + 1) = None.
Proof.
  destruct (forEach_result_run results 0 [] ∅ w) as (resultsMap & Hrun & Hin & Hout).
  exists resultsMap. split; [|split].
  - unfold Cli.getAnswerFromUser. rewrite (bind_run _ _ _ _ _ Hrun).
    cbn [fst snd]. unfold emit, bind, ret. rewrite after_events_app.
    unfold choices_with_more, option_numbers, menu_with_more. cbn [app].
    destruct (Cli.handleUserInput _ _ _) as [[choice|e|] w2]; [|done..].
    by destruct (resultsMap !! choice).
  - intros k r Hk. apply (Hin k r Hk).
  - rewrite Hout; [done|]. intros k Hk Heq%Number_toString_inj. lia.
Qed.

(** An answer that is accepted has taken at least one chunk. *)
Lemma handleUserInput_on_takes_a_line lines : forall query validResponses events choice events' rest,
  Cli.handleUserInput_on lines query validResponses events = (Resolved choice, (events', rest)) ->
  (length rest < length lines)%nat /\ choice ∈ validResponses.
Proof.
  induction lines as [|response lines IH]; intros query validResponses events choice events' rest;
    cbn; [discriminate|].
  case_bool_decide as Hin.
  - intros [= <- _ <-]. split; [lia|done].
  - intros [Hlt Hc]%IH. split; [lia|done].
Qed.

Lemma handleUserInput_takes_a_line query validResponses w choice w' :
  Cli.handleUserInput query validResponses w = (Resolved choice, w') ->
  (length (stdin w') < length (stdin w))%nat /\ choice ∈ validResponses.
Proof.
  unfold Cli.handleUserInput.
  destruct (Cli.handleUserInput_on _ _ _ _) as [o [events rest]] eqn:Hon.
  intros [= -> <-]. cbn. by eapply handleUserInput_on_takes_a_line.
Qed.

Lemma mediaQuery_stdin query type page w o w' :
  Cli.mediaQuery query type page w = (o, w') -> stdin w' = stdin w.
Proof.
  unfold Cli.mediaQuery, Cli.movieQuery, Cli.tvQuery, Cli.fetch, bind, ret.
  destruct type; destruct (on_response _); by intros [= _ <-].
Qed.

Lemma forEach_result_stdin results index validChoices resultsMap w :
  stdin (Cli.forEach_result results index validChoices resultsMap w).2 = stdin w.
Proof.
  destruct (forEach_result_run results index validChoices resultsMap w) as (? & -> & _).
  reflexivity.
Qed.

Lemma getAnswerFromUser_takes_a_line results showMoreResults w id w' :
  Cli.getAnswerFromUser results showMoreResults w = (Resolved id, w') ->
  (length (stdin w') < length (stdin w))%nat.
Proof.
  unfold Cli.getAnswerFromUser. destruct results as [results|]; [|discriminate].
  intros (listed & w1 & Hl & Hk)%bind_Resolved.
  apply bind_Resolved in Hk as (validChoices & w2 & Hv & Hk).
  apply bind_Resolved in Hk as (choice & w3 & Hc & Hk).
  assert (stdin w1 = stdin w) as H1.
  { rewrite <- (forEach_result_stdin results 0 [] ∅ w). by rewrite Hl. }
  assert (stdin w2 = stdin w1) as H2.
  { destruct showMoreResults; unfold emit, bind, ret in Hv; by injection Hv as _ <-. }
  apply handleUserInput_takes_a_line in Hc as [Hlt _].
  assert (w' = w3) as -> by (destruct (listed.2 !! choice); by injection Hk).
  rewrite <- H1, <- H2. done.
Qed.

(** The bound on the number of searches does not matter once it exceeds
    the number of chunks to come. *)
Lemma userSearch_within_enough n : forall m query type page w,
  (length (stdin w) < n)%nat -> (length (stdin w) < m)%nat ->
  Cli.userSearch_within n query type page w = Cli.userSearch_within m query type page w.
Proof.
  induction n as [|n IH]; intros [|m] query type page w Hn Hm; try lia.
  cbn [Cli.userSearch_within]. unfold bind.
  destruct (Cli.mediaQuery query type page w) as [[search|e|] w1] eqn:Hq; [|done..].
  apply mediaQuery_stdin in Hq.
  destruct (Cli.getAnswerFromUser _ _ w1) as [[id|e|] w2] eqn:Ha; [|done..].
  apply getAnswerFromUser_takes_a_line in Ha. rewrite Hq in Ha.
  assert (forall A (x y : A) (b : bool),
            (if b then Cli.userSearch_within n query type (page + 1) else ret None) w2 =
            (if b then Cli.userSearch_within m query type (page + 1) else ret None) w2)
    as Hrec.
  { intros _ _ _ [|]; [|done]. apply IH; lia. }
  destruct id as [id|]; [destruct (truthy_number (Some id))|]; try done;
    by apply (Hrec unit tt tt).
Qed.

Lemma userSearch_unfold n query type page w :
  (length (stdin w) < n)%nat ->
  Cli.userSearch query type page w = Cli.userSearch_within n query type page w.
Proof. intros Hn. unfold Cli.userSearch. apply userSearch_within_enough; lia. Qed.

(** What [userSearch] does on a page whose number is less than
    [total_pages]. The user is asked once the menu is written: a line for
    each result, then the extra option, numbered one past the last result,
    which is also the last of the choices on offer. If the user's accepted
    answer is that number, [userSearch] goes on as [userSearch] on the next
    page. If it is the number of a result whose [id] is not zero,
    [userSearch] fetches that title's details and returns them. *)
Theorem show_more_opens_the_next_page query type page w search w1 results :
  Cli.mediaQuery query type page w = (Resolved search, w1) ->
  Search.results search = Some results ->
  page < Search.total_pages search ->
  ((Cli.getAnswerFromUser (Some results) true w1).2 =
     (Cli.handleUserInput (js "Pick an option: ") (choices_with_more results)
        (menu_with_more results w1)).2
   /\ trace (menu_with_more results w1) =
      trace w1
        ++ imap (fun k r => StdoutWrite (Cli.option_line (Z.of_nat k) r)) results
        ++ [StdoutWrite (to_string (Z.of_nat (length results) + 1)
                           ++ js ". [SHOW MORE RESULTS]" ++ [LF])]
   /\ choices_with_more results =
      imap (fun k _ => to_string (Z.of_nat k + 1)) results
        ++ [to_string (Z.of_nat (length results) + 1)])
  /\ (forall w2,
        Cli.handleUserInput (js "Pick an option: ") (choices_with_more results)
          (menu_with_more results w1)
        = (Resolved (to_string (Z.of_nat (length results) + 1)), w2) ->
        Cli.userSearch query type page w = Cli.userSearch query type (page + 1) w2)
  /\ (forall k result w2,
        results !! k = Some result ->
        MediaResult.id result <> 0 ->
        Cli.handleUserInput (js "Pick an option: ") (choices_with_more results)
          (menu_with_more results w1)
        = (Resolved (to_string (Z.of_nat k + 1)), w2) ->
        Cli.userSearch query type page w =
        bind (Cli.getMediaById (MediaResult.id result) type)
          (fun details => ret (Some details)) w2).
Proof.
  intros Hq Hr Hpage.
  destruct (getAnswerFromUser_with_more results w1) as (resultsMap & Hask & Hin & Hmore).
  pose proof (mediaQuery_stdin _ _ _ _ _ _ Hq) as Hstdin.
  assert ((page <? Search.total_pages search) = true) as Hlt by (apply Z.ltb_lt; exact Hpage).
  split; [|split].
  - split; [|split; reflexivity].
    rewrite Hask. by destruct (Cli.handleUserInput _ _ _) as [[choice|e|] w2].
  - intros w2 Hchoice.
    rewrite (userSearch_unfold (S (length (stdin w)))) by lia.
    cbn [Cli.userSearch_within]. rewrite (bind_run _ _ _ _ _ Hq), Hr, Hlt.
    unfold bind at 1. rewrite Hask, Hchoice, Hmore. cbn [fmap option_fmap option_map andb].
    apply handleUserInput_takes_a_line in Hchoice as [Hlen _].
    unfold menu_with_more, after_events in Hlen. cbn [stdin] in Hlen.
    symmetry. apply userSearch_unfold. rewrite <- Hstdin. exact Hlen.
  - intros k result w2 Hk Hid Hchoice.
    rewrite (userSearch_unfold (S (length (stdin w)))) by lia.
    cbn [Cli.userSearch_within]. rewrite (bind_run _ _ _ _ _ Hq), Hr, Hlt.
    unfold bind at 1. rewrite Hask, Hchoice, (Hin _ _ Hk).
    cbn [fmap option_fmap option_map truthy_number].
    destruct (Z.eqb_spec (MediaResult.id result) 0) as [|_]; [done|]. reflexivity.
Qed.

End Interactive.

(* ================================================================== *)
(** * The theorems at work on the example platform *)
(* ================================================================== *)

Lemma inline_results_have_the_variant_field_witness :
  map InlineResult.id
    (default [] (resolved None
       (Bot.getInlineResultsMap (P := busy) (js "terminator") movie (Example.start [])).1))
  = [218; 900]
  /\ Example.nameless ∈ [Example.the_terminator; Example.nameless; Example.unreleased]
  /\ variant_field movie Example.nameless = None.
Proof.
  split; [|split; [set_solver|reflexivity]].
  destruct (inline_results_have_the_variant_field (P := busy) (js "terminator") movie
              (Example.start [])
              (default [] (resolved None
                 (Bot.getInlineResultsMap (P := busy) (js "terminator") movie
                    (Example.start [])).1))
              (Bot.getInlineResultsMap (P := busy) (js "terminator") movie
                 (Example.start [])).2)
    as (search & w1 & results & Hq & Hr & Hf & _ & _).
  { vm_compute. reflexivity. }
  rewrite (formats_ids _ _ _ Hf).
  vm_compute in Hq. injection Hq as <- <-. injection Hr as <-.
  vm_compute. reflexivity.
Defined.

Lemma inline_results_keep_the_order_witness :
  map InlineResult.id
    (resolved [] (Bot.getInlineResults (P := busy) (js "terminator") (Example.start [])).1)
  = [218; 900; 194797]
  /\ (Promise_all_settle
        [(9%nat, Resolved (Bot.inlineResult (P := busy) movie Example.the_terminator
                             Example.netflix));
         (4%nat, Resolved (Bot.inlineResult (P := busy) movie Example.unreleased
                             Example.no_flatrate))] 0).1
     = Resolved
         [Bot.inlineResult (P := busy) movie Example.the_terminator Example.netflix;
          Bot.inlineResult (P := busy) movie Example.unreleased Example.no_flatrate].
Proof.
  destruct (inline_results_keep_the_order (P := busy) (js "terminator") (Example.start []))
    as [Hshape Hpositions].
  split; [|apply Hpositions; repeat constructor].
  destruct (Hshape
              (resolved []
                 (Bot.getInlineResults (P := busy) (js "terminator") (Example.start [])).1)
              (Bot.getInlineResults (P := busy) (js "terminator") (Example.start [])).2)
    as (sm & wa & ms & movies & w1 & st & wb & ts & tvs
        & Hqm & Hrm & Hm & Hqt & Hrt & _ & _ & _ & _ & _ & _ & Hids).
  { vm_compute. reflexivity. }
  rewrite Hids.
  vm_compute in Hqm. injection Hqm as <- <-. injection Hrm as <-.
  vm_compute in Hm. injection Hm as <- <-.
  vm_compute in Hqt. injection Hqt as <- <-. injection Hrt as <-.
  vm_compute. reflexivity.
Defined.

Lemma answer_only_when_there_are_results_witness :
  Bot.on_inline_query (P := quiet) a_query (Example.start []) =
    (Resolved tt, (Bot.getInlineResults (P := quiet) (js "terminator") (Example.start [])).2)
  /\ Example.requests_so_far
       (trace (Bot.on_inline_query (P := quiet) a_query (Example.start [])).2)
     = length (trace (Bot.on_inline_query (P := quiet) a_query (Example.start [])).2)
  /\ last (trace (Bot.on_inline_query (P := busy) a_query (Example.start [])).2) =
     Some (AnswerInlineQuery (js "42")
             (resolved []
                (Bot.getInlineResults (P := busy) (js "terminator") (Example.start [])).1)
             0).
Proof.
  destruct (answer_only_when_there_are_results (P := quiet) a_query (Example.start []) []
              (Bot.getInlineResults (P := quiet) (js "terminator") (Example.start [])).2)
    as (_ & Hnone & _); [vm_compute; reflexivity|].
  destruct (answer_only_when_there_are_results (P := busy) a_query (Example.start [])
              (resolved []
                (Bot.getInlineResults (P := busy) (js "terminator") (Example.start [])).1)
              (Bot.getInlineResults (P := busy) (js "terminator") (Example.start [])).2)
    as (_ & _ & Hsome); [vm_compute; reflexivity|].
  split; [exact (Hnone eq_refl)|]. split; [vm_compute; reflexivity|].
  rewrite Hsome by (vm_compute; discriminate).
  unfold after_events. cbn [snd trace]. apply last_snoc.
Defined.


Lemma show_more_opens_the_next_page_witness :
  Cli.userSearch (P := paged) (js "terminator") movie 1
    (Example.start [js "x"; js "3"; js "1"])
  = Cli.userSearch (P := paged) (js "terminator") movie 2 (answered [js "x"; js "3"; js "1"])
  /\ Cli.userSearch (P := paged) (js "terminator") movie 1 (Example.start [js "1"])
     = bind (Cli.getMediaById (P := paged) 218 movie) (fun details => ret (Some details))
         (answered [js "1"]).
Proof.
  split.
  - destruct (show_more_opens_the_next_page (P := paged) (js "terminator") movie 1
                (Example.start [js "x"; js "3"; js "1"])
                (Example.search_of (Some first_page) 3 1)
                (Cli.mediaQuery (P := paged) (js "terminator") movie 1
                   (Example.start [js "x"; js "3"; js "1"])).2
                first_page) as (_ & Hmore & _);
      [reflexivity|reflexivity|reflexivity|].
    apply Hmore. vm_compute. reflexivity.
  - destruct (show_more_opens_the_next_page (P := paged) (js "terminator") movie 1
                (Example.start [js "1"])
                (Example.search_of (Some first_page) 3 1)
                (Cli.mediaQuery (P := paged) (js "terminator") movie 1
                   (Example.start [js "1"])).2
                first_page) as (_ & _ & Hpick);
      [reflexivity|reflexivity|reflexivity|].
    apply (Hpick 0%nat Example.the_terminator); [reflexivity|discriminate|].
    vm_compute. reflexivity.
Defined.

(** C8. The claim fails at a result whose [id] is zero, by a slip of the
    code: [getAnswerFromUser] returns the [id] of the chosen result, and
    [userSearch] tests it with [if (id)], which takes the id 0 for no
    choice at all. On the first of three pages, whose second result has
    the id 0, the answer 2 is accepted as the number of that result; yet
    [userSearch] goes on as it does for the show-more option: it searches
    page 2, and no request for the details of the title is made. *)
Lemma a_result_with_id_zero_is_not_fetched :
  first_page !! 1%nat = Some Example.zeroth
  /\ MediaResult.id Example.zeroth = 0
  /\ Cli.handleUserInput (P := paged) (js "Pick an option: ") (choices_with_more first_page)
       (menu_written [js "2"; js "1"])
     = (Resolved (js "2"), answered [js "2"; js "1"])
  /\ Cli.userSearch (P := paged) (js "terminator") movie 1 (Example.start [js "2"; js "1"])
     = Cli.userSearch (P := paged) (js "terminator") movie 2 (answered [js "2"; js "1"])
  /\ Cli.userSearch (P := paged) (js "terminator") movie 1 (Example.start [js "2"; js "1"])
     <> bind (Cli.getMediaById (P := paged) 0 movie) (fun details => ret (Some details))
          (answered [js "2"; js "1"])
  /\ requested_urls
       (trace (Cli.userSearch (P := paged) (js "terminator") movie 1
                 (Example.start [js "2"; js "1"])).2)
     = [ js "https://api.themoviedb.org/3//search/movie?query=terminator&include_adult=false&language=en-US&page=1";
         js "https://api.themoviedb.org/3//search/movie?query=terminator&include_adult=false&language=en-US&page=2";
         js "https://api.themoviedb.org/3//movie/900" ].
Proof.
  repeat split; try (vm_compute; reflexivity).
  intros Heq. apply (f_equal (fun r => requested_urls (trace r.2))) in Heq.
  vm_compute in Heq. discriminate.
Qed.

(* ================================================================== *)
(** * Further properties of the bot *)
(* ================================================================== *)

Section Bot_requests.
Context {P : Platform}.

Lemma Bot_fetch_world {A} `{FromJSON A} url w :
  (Bot.fetch (A := A) url w).2 = requested (request_for url) w.
Proof. reflexivity. Qed.

Lemma Bot_mediaQuery_world query type page w :
  (Bot.mediaQuery query type page w).2 = requested (request_for (search_url query type page)) w.
Proof.
  unfold Bot.mediaQuery, Bot.movieQuery, Bot.tvQuery, bind, ret, Bot.fetch.
  destruct type; destruct (on_response _); reflexivity.
Qed.

Lemma map_callback_world type result w :
  (Bot.map_callback type result w).2 = requested (request_for (providers_url type result)) w.
Proof.
  unfold Bot.map_callback, Bot.getWatchProvidersByMediaId, bind, ret, Bot.fetch.
  destruct (on_response _); reflexivity.
Qed.

Lemma start_all_callbacks_trace type cs start w :
  trace (start_all (map (Bot.map_callback type) cs) start w).2 =
  trace w ++ map (fun r => HttpsGet (request_for (providers_url type r))) cs.
Proof.
  revert w. induction cs as [|c cs IH]; intros w; cbn [map start_all].
  - by rewrite app_nil_r.
  - pose proof (map_callback_world type c (at_clock start w)) as Hw.
    destruct (Bot.map_callback type c (at_clock start w)) as [o w1]. cbn in Hw. subst w1.
    specialize (IH (requested (request_for (providers_url type c)) (at_clock start w))).
    destruct (start_all _ start _) as [os w2]. cbn in *.
    rewrite IH, <- app_assoc. reflexivity.
Qed.

Lemma candidates_length type results : (length (candidates type results) <= 10)%nat.
Proof.
  unfold candidates. etrans; [apply length_filter|]. rewrite length_take. lia.
Qed.

(** The requests of one [getInlineResultsMap], whatever comes of them. *)
Lemma getInlineResultsMap_trace query type w :
  trace (Bot.getInlineResultsMap query type w).2 =
  trace w ++ HttpsGet (request_for (search_url query type 1))
    :: match (Bot.mediaQuery query type 1 w).1 with
       | Resolved search =>
           match Search.results search with
           | Some results =>
               map (fun r => HttpsGet (request_for (providers_url type r)))
                 (candidates type results)
           | None => []
           end
       | _ => []
       end.
Proof.
  unfold Bot.getInlineResultsMap, bind.
  pose proof (Bot_mediaQuery_world query type 1 w) as Hw.
  destruct (Bot.mediaQuery query type 1 w) as [[search|e|] w1]; cbn in Hw; subst w1;
    cbn [fst snd]; try reflexivity.
  destruct (Search.results search) as [results|]; [|reflexivity].
  unfold Promise_all.
  pose proof (start_all_callbacks_trace type (candidates type results)
                (clock (requested (request_for (search_url query type 1)) w))
                (requested (request_for (search_url query type 1)) w)) as Ht.
  fold (candidates type results).
  destruct (start_all _ _ _) as [timed w2]. cbn in Ht.
  destruct (Promise_all_settle timed _) as [[all|e|] t]; cbn; rewrite Ht;
    cbn; by rewrite <- app_assoc.
Qed.

(** X1. One search request, then one provider request for each result
    that reaches the formatter, in the order of the results and at most ten
    of them; they are all made, whatever the answers to the earlier ones. A
    search that fails, or comes back without [results], is followed by no
    provider request. *)
Theorem provider_requests_follow_the_results query type w :
  (forall search w1 results,
     Bot.mediaQuery query type 1 w = (Resolved search, w1) ->
     Search.results search = Some results ->
     trace (Bot.getInlineResultsMap query type w).2 =
       trace w ++ HttpsGet (request_for (search_url query type 1))
         :: map (fun r => HttpsGet (request_for (providers_url type r)))
              (candidates type results)
     /\ (length (candidates type results) <= 10)%nat)
  /\ (forall e w1,
        Bot.mediaQuery query type 1 w = (Rejected e, w1) ->
        trace (Bot.getInlineResultsMap query type w).2 =
          trace w ++ [HttpsGet (request_for (search_url query type 1))])
  /\ (forall search w1,
        Bot.mediaQuery query type 1 w = (Resolved search, w1) ->
        Search.results search = None ->
        trace (Bot.getInlineResultsMap query type w).2 =
          trace w ++ [HttpsGet (request_for (search_url query type 1))]).
Proof.
  split; [|split].
  - intros search w1 results Hq Hr. split; [|apply candidates_length].
    rewrite getInlineResultsMap_trace, Hq. cbn [fst]. by rewrite Hr.
  - intros e w1 Hq. by rewrite getInlineResultsMap_trace, Hq.
  - intros search w1 Hq Hr. rewrite getInlineResultsMap_trace, Hq. cbn [fst]. by rewrite Hr.
Qed.

End Bot_requests.

Lemma no_later_transitive {A} : Transitive (no_later (A := A)).
Proof. intros x y z. unfold no_later. lia. Qed.

Lemma no_later_total {A} : Total (no_later (A := A)).
Proof. intros x y. unfold no_later. lia. Qed.

Lemma arrivals_sorted {A} (timed : list (nat * Outcome A)) :
  StronglySorted no_later (arrivals timed).
Proof.
  unfold arrivals.
  apply (@StronglySorted_merge_sort _ no_later _ no_later_transitive no_later_total).
Qed.

(** On arrivals in order of time, the rejection that settles the whole is
    no later than any other. *)
Lemma deliver_Rejected_earliest {A} (arrived : list (nat * (nat * Outcome A))) :
  StronglySorted no_later arrived ->
  forall values now e t,
    deliver arrived values now = (Rejected e, t) ->
    forall x, x ∈ arrived -> (exists e', x.2.2 = Rejected e') -> (t <= x.1)%nat.
Proof.
  induction 1 as [|[t0 [i o]] rest Hsorted IH Hhead]; intros values now e t Hd x Hx [e' He'].
  - by apply elem_of_nil in Hx.
  - destruct o as [v|e0|]; cbn in Hd.
    + apply elem_of_cons in Hx as [->|Hx]; [discriminate|]. eapply IH; eauto.
    + injection Hd as <- <-. apply elem_of_cons in Hx as [->|Hx]; [done|].
      rewrite Forall_forall in Hhead. apply (Hhead x Hx).
    + apply elem_of_cons in Hx as [->|Hx]; [discriminate|]. eapply IH; eauto.
Qed.

Lemma Promise_all_settle_Rejected {A} (timed : list (nat * Outcome A)) start e t :
  Promise_all_settle timed start = (Rejected e, t) ->
  exists i, timed !! i = Some (t, Rejected e)
            /\ forall j t' e', timed !! j = Some (t', Rejected e') -> (t <= t')%nat.
Proof.
  unfold Promise_all_settle.
  destruct (deliver _ _ _) as [[values|e0|] t0] eqn:Hd; [| |discriminate].
  { destruct (mapM _ values); discriminate. }
  intros [= -> ->]. destruct (deliver_Rejected _ _ _ _ _ Hd) as [i Hi].
  exists i. split; [by apply elem_of_arrivals|].
  intros j t' e' Hj. apply elem_of_arrivals in Hj.
  apply (deliver_Rejected_earliest _ (arrivals_sorted timed) _ _ _ _ Hd _ Hj). by exists e'.
Qed.

Lemma Promise_all_settle_one_rejected {A} (timed : list (nat * Outcome A)) start i t e :
  timed !! i = Some (t, Rejected e) ->
  exists e' t', Promise_all_settle timed start = (Rejected e', t').
Proof.
  intros Hi. destruct (Promise_all_settle timed start) as [[vs|e'|] t'] eqn:Hs; [|eauto|].
  - apply Promise_all_settle_Resolved in Hs.
    destruct (Forall2_lookup_l _ _ _ _ _ Hs Hi) as (v & _ & Hv). discriminate.
  - unfold Promise_all_settle in Hs.
    destruct (deliver _ _ _) as [[values|e0|] t0] eqn:Hd; [|discriminate|].
    + destruct (deliver_filled _ _ _ _ _ Hd) as [Hrej _].
      apply elem_of_arrivals in Hi. destruct (Hrej _ e Hi). reflexivity.
    + pose proof (deliver_settles (arrivals timed) (replicate (length timed) None) start) as Hp.
      by rewrite Hd in Hp.
Qed.

Section Bot_outcomes.
Context {P : Platform}.

Lemma getInlineResultsMap_outcome query type w search w1 results :
  Bot.mediaQuery query type 1 w = (Resolved search, w1) ->
  Search.results search = Some results ->
  (Bot.getInlineResultsMap query type w).1 =
  match (Promise_all_settle (provider_lookups type results w1) (clock w1)).1 with
  | Resolved all => Resolved (Some all)
  | Rejected e => Rejected e
  | Pending => Pending
  end.
Proof.
  intros Hq Hr. unfold Bot.getInlineResultsMap. rewrite (bind_run _ _ _ _ _ Hq), Hr.
  unfold bind, Promise_all, provider_lookups, candidates.
  destruct (start_all _ _ _) as [timed w2]. cbn [fst].
  by destruct (Promise_all_settle timed (clock w1)) as [[all|e|] t].
Qed.

(** X2. Once the search has found results, [getInlineResultsMap] returns
    a list exactly when every provider lookup resolved, the list then being
    their values in the order of the results. A single rejected lookup
    rejects the whole, with the rejection that arrived first, which need
    not be that of the first result. *)
Theorem one_failed_lookup_rejects_the_list query type w search w1 results :
  Bot.mediaQuery query type 1 w = (Resolved search, w1) ->
  Search.results search = Some results ->
  (forall out,
     (Bot.getInlineResultsMap query type w).1 = Resolved out <->
     exists values,
       out = Some values
       /\ Forall2 (fun to v => to.2 = Resolved v) (provider_lookups type results w1) values)
  /\ (forall e,
        (Bot.getInlineResultsMap query type w).1 = Rejected e ->
        exists i t,
          provider_lookups type results w1 !! i = Some (t, Rejected e)
          /\ forall j t' e',
               provider_lookups type results w1 !! j = Some (t', Rejected e') ->
               (t <= t')%nat)
  /\ (forall i t e,
        provider_lookups type results w1 !! i = Some (t, Rejected e) ->
        exists e', (Bot.getInlineResultsMap query type w).1 = Rejected e').
Proof.
  intros Hq Hr. rewrite (getInlineResultsMap_outcome _ _ _ _ _ _ Hq Hr).
  split; [|split].
  - intros out. split.
    + destruct (Promise_all_settle _ _) as [[all|e|] t] eqn:Hs; cbn; try discriminate.
      intros [= <-]. exists all. split; [done|]. by eapply Promise_all_settle_Resolved.
    + intros (values & -> & Hall).
      by rewrite (Promise_all_settle_all_resolved _ _ (clock w1) Hall).
  - intros e. destruct (Promise_all_settle _ _) as [[all|e0|] t] eqn:Hs; cbn; try discriminate.
    intros [= ->]. destruct (Promise_all_settle_Rejected _ _ _ _ Hs) as (i & Hi & Hmin).
    exists i, t. done.
  - intros i t e Hi.
    destruct (Promise_all_settle_one_rejected _ (clock w1) _ _ _ Hi) as (e' & t' & ->).
    by exists e'.
Qed.

End Bot_outcomes.

Lemma one_failed_lookup_rejects_the_list_witness :
  (Bot.getInlineResultsMap (P := flaky) (js "terminator") movie (Example.start [])).1
  = Rejected (NetworkError (js "second lookup"))
  /\ provider_lookups (P := flaky) movie
       [Example.the_terminator; Example.nameless; Example.unreleased]
       (Bot.mediaQuery (P := flaky) (js "terminator") movie 1 (Example.start [])).2
     = [ (199%nat, Rejected (NetworkError (js "first lookup")));
         (198%nat, Rejected (NetworkError (js "second lookup"))) ].
Proof.
  split; [|vm_compute; reflexivity].
  destruct (one_failed_lookup_rejects_the_list (P := flaky) (js "terminator") movie
              (Example.start [])
              (Example.search_of
                 (Some [Example.the_terminator; Example.nameless; Example.unreleased]) 1 1)
              (Bot.mediaQuery (P := flaky) (js "terminator") movie 1 (Example.start [])).2
              [Example.the_terminator; Example.nameless; Example.unreleased]
              eq_refl eq_refl) as (_ & Hfirst & Hany).
  destruct (Hany 0%nat 199%nat (NetworkError (js "first lookup"))) as [e He];
    [vm_compute; reflexivity|].
  rewrite He. f_equal.
  destruct (Hfirst e He) as (i & t & Hi & Hmin).
  specialize (Hmin 1%nat 198%nat (NetworkError (js "second lookup"))).
  vm_compute in Hi. destruct i as [|[|i]]; [| |discriminate].
  - injection Hi as <- <-. exfalso. assert (199 <= 198)%nat; [|lia].
    apply Hmin. vm_compute. reflexivity.
  - injection Hi as _ <-. reflexivity.
Defined.

Section Bot_handler.
Context {P : Platform}.

Lemma same_input_and_cache_refl w : same_input_and_cache w w.
Proof. done. Qed.

Lemma same_input_and_cache_trans w1 w2 w3 :
  same_input_and_cache w1 w2 -> same_input_and_cache w2 w3 -> same_input_and_cache w1 w3.
Proof. intros [H1 H2] [H3 H4]. split; congruence. Qed.

Lemma start_all_callbacks_frame type cs start w :
  same_input_and_cache w (start_all (map (Bot.map_callback type) cs) start w).2.
Proof.
  revert w. induction cs as [|c cs IH]; intros w; cbn [map start_all]; [done|].
  pose proof (map_callback_world type c (at_clock start w)) as Hw.
  destruct (Bot.map_callback type c (at_clock start w)) as [o w1]. cbn in Hw. subst w1.
  specialize (IH (requested (request_for (providers_url type c)) (at_clock start w))).
  destruct (start_all _ start _) as [os w2]. cbn in *.
  eapply same_input_and_cache_trans; [|exact IH]. done.
Qed.

Lemma getInlineResultsMap_frame query type w :
  same_input_and_cache w (Bot.getInlineResultsMap query type w).2.
Proof.
  unfold Bot.getInlineResultsMap, bind.
  pose proof (Bot_mediaQuery_world query type 1 w) as Hw.
  destruct (Bot.mediaQuery query type 1 w) as [[search|e|] w1]; cbn in Hw; subst w1;
    cbn [snd]; try done.
  destruct (Search.results search) as [results|]; [|done].
  unfold Promise_all.
  pose proof (start_all_callbacks_frame type
                (filter (fun r => Bot.filter_callback type r = true) (take 10 results))
                (clock (requested (request_for (search_url query type 1)) w))
                (requested (request_for (search_url query type 1)) w)) as Hf.
  destruct (start_all _ _ _) as [timed w2]. cbn in Hf.
  by destruct (Promise_all_settle timed _) as [[all|e|] t].
Qed.

(** One [getInlineResultsMap] makes between one and eleven requests. *)
Lemma getInlineResultsMap_requests query type w :
  exists requests,
    trace (Bot.getInlineResultsMap query type w).2 = trace w ++ map HttpsGet requests
    /\ (1 <= length requests <= 11)%nat.
Proof.
  rewrite getInlineResultsMap_trace.
  destruct (Bot.mediaQuery query type 1 w).1 as [search|e|].
  2,3: exists [request_for (search_url query type 1)]; split; [done|cbn; lia].
  destruct (Search.results search) as [results|].
  2: exists [request_for (search_url query type 1)]; split; [done|cbn; lia].
  exists (request_for (search_url query type 1)
            :: map (fun r => request_for (providers_url type r)) (candidates type results)).
  split; [cbn; by rewrite map_map|].
  cbn. rewrite length_map. pose proof (candidates_length type results). lia.
Qed.

Lemma getInlineResults_run query w :
  exists requests,
    trace (Bot.getInlineResults query w).2 = trace w ++ map HttpsGet requests
    /\ (1 <= length requests <= 22)%nat
    /\ same_input_and_cache w (Bot.getInlineResults query w).2.
Proof.
  unfold Bot.getInlineResults, bind.
  destruct (getInlineResultsMap_requests query movie w) as (r1 & Ht1 & Hl1).
  pose proof (getInlineResultsMap_frame query movie w) as Hf1.
  destruct (Bot.getInlineResultsMap query movie w) as [[movies|e|] w1]; cbn in *.
  2,3: exists r1; split; [done|]; split; [lia|done].
  destruct (getInlineResultsMap_requests query tv w1) as (r2 & Ht2 & Hl2).
  pose proof (getInlineResultsMap_frame query tv w1) as Hf2.
  destruct (Bot.getInlineResultsMap query tv w1) as [[tvs|e|] w2]; cbn in *.
  all: exists (r1 ++ r2); rewrite map_app, app_assoc, <- Ht1, length_app.
  all: assert (same_input_and_cache w w2) by (by eapply same_input_and_cache_trans).
  all: try (destruct movies, tvs; cbn).
  all: split; [done|]; split; [lia|done].
Qed.

Lemma formats_article type r o : formats type r o -> article o.
Proof. intros [providers ->]. done. Qed.

Lemma getInlineResults_articles query w out w' :
  Bot.getInlineResults query w = (Resolved out, w') ->
  (length out <= 20)%nat /\ Forall article out.
Proof.
  intros (movies & w1 & tvs & Hm & Ht & ->)%getInlineResults_Resolved.
  destruct (getInlineResultsMap_Resolved _ _ _ _ _ Hm) as (sm & wa & ms & _ & _ & Hfm).
  destruct (getInlineResultsMap_Resolved _ _ _ _ _ Ht) as (st & wb & ts & _ & _ & Hft).
  split.
  - rewrite length_app, <- (Forall2_length _ _ _ Hfm), <- (Forall2_length _ _ _ Hft).
    pose proof (candidates_length movie ms). pose proof (candidates_length tv ts). lia.
  - apply Forall_app. split.
    + eapply Forall2_Forall_r; [exact Hfm|]. apply Forall_forall.
      intros r _ o. apply formats_article.
    + eapply Forall2_Forall_r; [exact Hft|]. apply Forall_forall.
      intros r _ o. apply formats_article.
Qed.

(** X3. Whatever the server does, the handler of an inline query makes
    between one and twenty-two requests and then at most one call of the
    answer API, which comes last; an answer carries between one and twenty
    results, each an article to be read as MarkdownV2, and is sent only by
    a handler that comes to its end. The handler reads nothing from
    standard input and leaves the provider cache as it was. No timeout is
    set on a request: the handler is sure to settle only if the server
    leaves no request unanswered. *)
Theorem the_handler_answers_at_most_once inlineQuery w :
  exists requests answers,
    trace (Bot.on_inline_query inlineQuery w).2 = trace w ++ map HttpsGet requests ++ answers
    /\ (1 <= length requests <= 22)%nat
    /\ (answers = []
        \/ exists results,
             answers = [AnswerInlineQuery (InlineQuery.id inlineQuery) results 0]
             /\ (1 <= length results <= 20)%nat
             /\ Forall article results
             /\ (Bot.on_inline_query inlineQuery w).1 = Resolved tt)
    /\ same_input_and_cache w (Bot.on_inline_query inlineQuery w).2
    /\ (answering -> (Bot.on_inline_query inlineQuery w).1 <> Pending).
Proof.
  destruct (getInlineResults_run (InlineQuery.query inlineQuery) w) as (requests & Ht & Hl & Hf).
  pose proof (requesting_getInlineResults (InlineQuery.query inlineQuery) w) as [Hsettles _].
  exists requests. unfold Bot.on_inline_query, bind.
  destruct (Bot.getInlineResults (InlineQuery.query inlineQuery) w) as [[results|e|] w1] eqn:Hr;
    cbn in *.
  - destruct (getInlineResults_articles _ _ _ _ Hr) as [Hlen Hart].
    destruct results as [|r results].
    + exists []. cbn. rewrite app_nil_r.
      split; [done|]. split; [done|]. split; [by left|]. split; done.
    + exists [AnswerInlineQuery (InlineQuery.id inlineQuery) (r :: results) 0]. cbn.
      rewrite Ht, <- app_assoc.
      split; [done|]. split; [done|]. split; [|split; [apply Hf|done]].
      right. exists (r :: results).
      split; [done|]. split; [cbn in *; lia|]. split; done.
  - exists []. rewrite app_nil_r.
    split; [done|]. split; [done|]. split; [by left|]. split; done.
  - exists []. rewrite app_nil_r.
    split; [done|]. split; [done|]. split; [by left|].
    split; [done|intros Ha; by destruct (Hsettles Ha)].
Qed.

(** X4. When the movie search fails, the query ends there: [getInlineResults]
    and the handler reject with the error of the search, and the movie
    search is the only request made: no tv search, no answer. *)
Theorem a_failed_movie_search_ends_the_query inlineQuery w e w1 :
  Bot.mediaQuery (InlineQuery.query inlineQuery) movie 1 w = (Rejected e, w1) ->
  Bot.getInlineResults (InlineQuery.query inlineQuery) w = (Rejected e, w1)
  /\ Bot.on_inline_query inlineQuery w = (Rejected e, w1)
  /\ trace w1 =
     trace w ++ [HttpsGet (request_for (search_url (InlineQuery.query inlineQuery) movie 1))].
Proof.
  intros Hq.
  assert (Bot.getInlineResultsMap (InlineQuery.query inlineQuery) movie w = (Rejected e, w1))
    as Hm by (unfold Bot.getInlineResultsMap; by rewrite (bind_Rejected_l _ _ _ _ _ Hq)).
  assert (Bot.getInlineResults (InlineQuery.query inlineQuery) w = (Rejected e, w1))
    as Hr by (unfold Bot.getInlineResults; by rewrite (bind_Rejected_l _ _ _ _ _ Hm)).
  split; [done|]. split.
  - unfold Bot.on_inline_query. by rewrite (bind_Rejected_l _ _ _ _ _ Hr).
  - pose proof (Bot_mediaQuery_world (InlineQuery.query inlineQuery) movie 1 w) as Hw.
    rewrite Hq in Hw. cbn in Hw. by subst w1.
Qed.

(** X5. Read as MarkdownV2, where a backslash stands for the character
    after it, the message body of a formatted result is its title, an empty
    line, and the streaming block as it was composed. *)
Theorem the_message_reads_as_the_title_and_the_block type result providers :
  unescape (message_text_of (Bot.inlineResult type result providers)) =
  InlineResult.title (Bot.inlineResult type result providers) ++ [LF; LF]
    ++ Bot.watch_of providers
  /\ InlineResult.id (Bot.inlineResult type result providers) = MediaResult.id result.
Proof.
  split; [|reflexivity].
  unfold message_text_of, Bot.inlineResult.
  cbn [InlineResult.input_message_content InputMessageContent.message_text InlineResult.title].
  rewrite unescape_escapeRegExp, <- !app_assoc. reflexivity.
Qed.

End Bot_handler.

Lemma a_failed_movie_search_ends_the_query_witness :
  Bot.on_inline_query (P := down) a_query (Example.start []) =
  (Rejected (NetworkError (js "ECONNRESET")),
   requested (P := down) (request_for (P := down) (search_url (P := down) (js "terminator") movie 1))
     (Example.start []))
  /\ Example.requests_so_far
       (trace (Bot.on_inline_query (P := down) a_query (Example.start [])).2) = 1%nat.
Proof.
  destruct (a_failed_movie_search_ends_the_query (P := down) a_query (Example.start [])
              (NetworkError (js "ECONNRESET"))
              (requested (P := down)
                 (request_for (P := down) (search_url (P := down) (js "terminator") movie 1))
                 (Example.start [])))
    as (_ & Hh & _); [reflexivity|].
  split; [exact Hh|]. rewrite Hh. reflexivity.
Defined.

(* ================================================================== *)
(** * Further properties of dates, escaping and the cache *)
(* ================================================================== *)

Lemma DaysInYear_cases y : DaysInYear y = 365 \/ DaysInYear y = 366.
Proof.
  unfold DaysInYear.
  destruct (y mod 4 =? 0), (y mod 100 =? 0), (y mod 400 =? 0); cbn; auto.
Qed.

Lemma DayFromYear_succ y : DayFromYear (y + 1) = DayFromYear y + DaysInYear y.
Proof.
  unfold DayFromYear, DaysInYear.
  destruct (Z.eqb_spec (y mod 4) 0), (Z.eqb_spec (y mod 100) 0), (Z.eqb_spec (y mod 400) 0);
    cbn [negb]; Z.to_euclidean_division_equations; lia.
Qed.

Lemma YearFromTime_unique t y :
  TimeFromYear y <= t < TimeFromYear (y + 1) -> YearFromTime t = y.
Proof.
  intros [Hlo Hhi]. pose proof (YearFromTime_largest t y Hlo) as Hle.
  destruct (YearFromTime_spec t) as [Hlo' _].
  destruct (Z.eq_dec (YearFromTime t) y) as [|Hne]; [done|exfalso].
  assert (DayFromYear (y + 1) <= DayFromYear (YearFromTime t)) as Hmono.
  { destruct (Z.eq_dec (y + 1) (YearFromTime t)) as [->|Hne']; [lia|].
    apply Z.lt_le_incl, DayFromYear_increasing. lia. }
  unfold TimeFromYear, msPerDay in *. lia.
Qed.

(** The day of the year of a date that exists. *)
Lemma day_of_year_bounds y m d :
  1 <= m <= 12 -> 1 <= d <= days_in_month y m ->
  0 <= days_before_month y m + (d - 1) < DaysInYear y
  /\ (days_before_month y m + (d - 1) = 0 <-> m = 1 /\ d = 1).
Proof.
  intros Hm Hd. pose proof (DaysInYear_cases y) as Hy.
  assert (m = 1 \/ m = 2 \/ m = 3 \/ m = 4 \/ m = 5 \/ m = 6 \/ m = 7 \/ m = 8 \/ m = 9
          \/ m = 10 \/ m = 11 \/ m = 12) as Hcases by lia.
  unfold days_before_month, days_in_month in *.
  repeat (destruct Hcases as [->|Hcases]); try subst m; lia.
Qed.

(** What the date-only form is read as: midnight UTC of a day of the year
    written in its first four characters. *)
Lemma parse_date_only_Some s t :
  parse_date_only s = Some t ->
  exists y k,
    digits 0 (take 4 s) = Some y
    /\ t = msPerDay * (DayFromYear y + k)
    /\ 0 <= k < DaysInYear y.
Proof.
  unfold parse_date_only.
  do 10 (destruct s as [|? s]; [discriminate|]). destruct s; [|discriminate].
  destruct (_ && _)%bool; [|discriminate]. cbn [take].
  destruct (digits 0 [_; _; _; _]) as [y|]; [|discriminate].
  destruct (digits 0 [_; _]) as [m|]; [|discriminate].
  destruct (digits 0 [_; _]) as [d|]; [|discriminate].
  destruct (_ && _)%bool eqn:Hvalid; [|discriminate]. intros [= <-].
  rewrite !andb_true_iff, !Z.leb_le in Hvalid.
  destruct (day_of_year_bounds y m d) as [Hk _]; [lia..|].
  exists y, (days_before_month y m + (d - 1)).
  split; [done|]. split; [f_equal; lia|done].
Qed.

Section Year_shown.
Context {P : Platform}.
Hypothesis zone : timezone_within_a_day.

Lemma getFullYear_date_only s t :
  parse_date_only s = Some t ->
  exists y,
    digits 0 (take 4 s) = Some y
    /\ TimeFromYear y <= t < TimeFromYear (y + 1)
    /\ getFullYear (Date_new (Some s)) =
       Int (if (t =? TimeFromYear y) && (LocalTZA t <? 0) then y - 1 else y).
Proof.
  intros Hs. destruct (parse_date_only_Some _ _ Hs) as (y & k & Hy & -> & Hk).
  exists y. split; [done|].
  pose proof (DayFromYear_succ y) as Hnext.
  pose proof (DayFromYear_succ (y - 1)) as Hprev. rewrite Z.sub_add in Hprev.
  pose proof (DaysInYear_cases (y - 1)) as Hdays.
  pose proof (zone (msPerDay * (DayFromYear y + k))) as Hzone.
  split; [unfold TimeFromYear, msPerDay in *; lia|].
  unfold Date_new, Date_parse. rewrite Hs. unfold getFullYear. f_equal.
  apply YearFromTime_unique.
  set (o := LocalTZA (msPerDay * (DayFromYear y + k))) in *.
  destruct (Z.eqb_spec (msPerDay * (DayFromYear y + k)) (TimeFromYear y)) as [Heq|Hne];
    destruct (Z.ltb_spec o 0) as [Hneg|Hpos]; cbn [andb];
    rewrite ?Z.sub_add; unfold TimeFromYear, msPerDay in *; lia.
Qed.

(** X6. The year the bot shows for a result dated in the form
    YYYY-MM-DD is the year written in the date, with one exception: a date
    that is the first of January is shown with the year before wherever
    local time is behind UTC, because the date is read as midnight UTC and
    its year is taken in local time. *)
Theorem the_year_shown_is_the_year_of_the_date type result s t :
  Bot.date_of type result = Some s ->
  parse_date_only s = Some t ->
  exists y,
    digits 0 (take 4 s) = Some y
    /\ TimeFromYear y <= t < TimeFromYear (y + 1)
    /\ Bot.year_of type result =
       Some (Int (if (t =? TimeFromYear y) && (LocalTZA t <? 0) then y - 1 else y)).
Proof.
  intros Hdate Hs. destruct (getFullYear_date_only s t Hs) as (y & Hy & Ht & Hyear).
  exists y. split; [done|]. split; [done|].
  unfold Bot.year_of. rewrite Hdate, Hyear.
  destruct s; [discriminate|]. reflexivity.
Qed.

End Year_shown.

Lemma the_year_shown_is_the_year_of_the_date_witness :
  Bot.year_of (P := Example.scripted []) movie new_year_film = Some (Int 2023)
  /\ InlineResult.title
       (Bot.inlineResult (P := Example.scripted []) movie new_year_film Example.no_region)
     = js "First Light (2023)".
Proof.
  destruct (the_year_shown_is_the_year_of_the_date (P := Example.scripted []) example_zone
              movie new_year_film (js "2024-01-01") (msPerDay * 19723) eq_refl eq_refl)
    as (y & Hy & _ & Hyear).
  injection Hy as <-.
  split; [exact Hyear|].
  unfold Bot.inlineResult. cbn [InlineResult.title]. rewrite Hyear. reflexivity.
Defined.

Lemma escapeRegExp_length text :
  length (escapeRegExp text) = (length text + length (filter reserved text))%nat.
Proof.
  induction text as [|c text IH]; [done|].
  rewrite escapeRegExp_cons, length_app, IH, filter_cons.
  destruct (decide (reserved c)); cbn; lia.
Qed.

Lemma escapeRegExp_no_reserved text :
  Forall (fun c => ~ reserved c) text -> escapeRegExp text = text.
Proof.
  induction 1 as [|c text Hc _ IH]; [done|].
  rewrite escapeRegExp_cons, decide_False, IH by done. reflexivity.
Qed.

Lemma escapeRegExp_is_reserved_free text :
  filter reserved (escapeRegExp text) = [] -> Forall (fun c => ~ reserved c) text.
Proof.
  induction text as [|c text IH]; [constructor|].
  rewrite escapeRegExp_cons. destruct (decide (reserved c)) as [Hc|Hc].
  - cbn [app]. rewrite filter_cons_True by apply backslash_reserved. discriminate.
  - cbn [app]. rewrite filter_cons_False by done. intros Hrest. constructor; [done|by apply IH].
Qed.

(** X7. [escapeRegExp] loses nothing and is not idempotent: two texts
    with the same escaping are the same text; the escaped text is as long
    as the text plus its number of reserved characters, so at most twice as
    long; and escaping an escaped text again leaves it alone only if the
    text had no reserved character at all. *)
Theorem escaping_twice_is_escaping_once_only_for_plain_text (text : jsstring) :
  (forall other, escapeRegExp text = escapeRegExp other -> text = other)
  /\ length (escapeRegExp text) = (length text + length (filter reserved text))%nat
  /\ (length text <= length (escapeRegExp text) <= 2 * length text)%nat
  /\ (escapeRegExp (escapeRegExp text) = escapeRegExp text <->
      Forall (fun c => ~ reserved c) text).
Proof.
  split; [|split; [|split]].
  - intros other Heq. by rewrite <- (unescape_escapeRegExp text), Heq, unescape_escapeRegExp.
  - apply escapeRegExp_length.
  - rewrite escapeRegExp_length. pose proof (length_filter reserved text). lia.
  - split.
    + intros Heq. apply escapeRegExp_is_reserved_free.
      apply (f_equal length) in Heq. rewrite (escapeRegExp_length (escapeRegExp text)) in Heq.
      apply length_zero_iff_nil. lia.
    + intros Hplain. by rewrite !(escapeRegExp_no_reserved _ Hplain).
Qed.

Section Cache_calls.
Context {P : Platform}.

(** X8. One call of [getWatchProviders] makes at most one request, the
    one for the catalog of its type, and only when the type has no entry;
    it never touches the entry of the other type; when it resolves, its
    value is defined and is the entry of its type from then on; and when
    it does not resolve, the cache is as it was. It never settles exactly
    when the type had no entry and the request for the catalog is left
    unanswered. *)
Theorem one_call_touches_one_entry type w :
  (trace (Bot.getWatchProviders type w).2 =
     trace w ++ (if decide (is_Some (WATCH_PROVIDERS w !! type)) then []
                 else [HttpsGet (catalog_request type)]))
  /\ (forall other, other <> type ->
        WATCH_PROVIDERS (Bot.getWatchProviders type w).2 !! other
        = WATCH_PROVIDERS w !! other)
  /\ (forall value, (Bot.getWatchProviders type w).1 = Resolved value ->
        exists catalog, value = Some catalog
          /\ WATCH_PROVIDERS (Bot.getWatchProviders type w).2 !! type = Some catalog)
  /\ ((forall value, (Bot.getWatchProviders type w).1 <> Resolved value) ->
        WATCH_PROVIDERS (Bot.getWatchProviders type w).2 = WATCH_PROVIDERS w)
  /\ ((Bot.getWatchProviders type w).1 = Pending <->
      WATCH_PROVIDERS w !! type = None
      /\ server (trace w) (catalog_request type) = NoAnswer).
Proof.
  destruct (WATCH_PROVIDERS w !! type) as [catalog|] eqn:Hentry.
  - rewrite (getWatchProviders_present _ _ _ Hentry). cbn [fst snd].
    rewrite decide_True by eauto. rewrite app_nil_r.
    split; [done|]. split; [done|]. split; [|split; [done|]].
    + intros value [= <-]. eauto.
    + split; [discriminate|]. by intros [? _].
  - rewrite (getWatchProviders_absent _ _ Hentry).
    rewrite decide_False by apply is_Some_None.
    unfold Bot.fetch. pose proof (on_response_Pending (A := Catalog)
      (server (trace w) {| Request.url := Bot.watchProvidersUrl type;
                           Request.headers := fetch_options Bot.getTMDBToken |})) as Hs.
    change {| Request.url := Bot.watchProvidersUrl type;
              Request.headers := fetch_options Bot.getTMDBToken |}
      with (catalog_request type) in *.
    destruct (on_response _) as [catalog|e|]; cbn [fst snd trace WATCH_PROVIDERS requested].
    + split; [done|]. split; [intros other Hne; by rewrite lookup_insert_ne|].
      split; [|split].
      * intros value [= <-]. exists catalog. by rewrite lookup_insert_eq.
      * intros Hnot. by destruct (Hnot (Some catalog)).
      * split; [discriminate|]. intros [_ Hno]. by apply Hs in Hno.
    + split; [done|]. split; [done|]. split; [discriminate|]. split; [done|].
      split; [discriminate|]. intros [_ Hno]. by apply Hs in Hno.
    + split; [done|]. split; [done|]. split; [discriminate|]. split; [done|].
      split; [|done]. intros _. split; [done|]. by apply Hs.
Qed.

End Cache_calls.

(* ================================================================== *)
(** * Further properties of the interactive search flow *)
(* ================================================================== *)

Lemma prompt_after_again lines :
  prompt_after (js "Pick an option: ") lines = js "Pick an option: ".
Proof. by destruct lines. Qed.

Lemma requested_urls_app l1 l2 :
  requested_urls (l1 ++ l2) = requested_urls l1 ++ requested_urls l2.
Proof. apply omap_app. Qed.

Lemma requested_urls_refusals lines : forall query, requested_urls (refusals query lines) = [].
Proof. induction lines as [|line lines IH]; intros query; [done|]. cbn. apply IH. Qed.

Lemma requested_urls_lines {A} (f : nat -> A -> jsstring) (l : list A) :
  requested_urls (imap (fun k r => StdoutWrite (f k r)) l) = [].
Proof.
  revert f. induction l as [|a l IH]; intros f; [done|]. cbn. apply (IH (fun k r => f (S k) r)).
Qed.

(** Either the first line of every chunk is refused, or there is a first
    chunk whose first line is accepted. *)
Lemma first_valid_chunk (validResponses : list jsstring) (chunks : list Chunk.t) :
  Forall (fun chunk => Chunk.line chunk ∉ validResponses) chunks
  \/ exists bad good later,
       chunks = bad ++ good :: later
       /\ Forall (fun chunk => Chunk.line chunk ∉ validResponses) bad
       /\ Chunk.line good ∈ validResponses.
Proof.
  induction chunks as [|chunk chunks IH]; [by left|].
  destruct (decide (Chunk.line chunk ∈ validResponses)) as [Hin|Hout].
  - right. exists [], chunk, chunks. by repeat split.
  - destruct IH as [Hall|(bad & good & later & -> & Hbad & Hgood)].
    + left. by constructor.
    + right. exists (chunk :: bad), good, later. repeat split; [by constructor|done].
Qed.

Section Prompting.
Context {P : Platform}.

Lemma handleUserInput_on_refused bad : forall query validResponses events chunks,
  Forall (fun chunk => Chunk.line chunk ∉ validResponses) bad ->
  Cli.handleUserInput_on (bad ++ chunks) query validResponses events =
  Cli.handleUserInput_on chunks (prompt_after query (map Chunk.line bad)) validResponses
    (events ++ refusals query (map Chunk.line bad)).
Proof.
  induction bad as [|chunk bad IH]; intros query validResponses events chunks Hbad.
  - cbn. by rewrite app_nil_r.
  - inversion_clear Hbad as [|? ? Hline Hrest]. cbn [app Cli.handleUserInput_on].
    rewrite bool_decide_eq_false_2 by done. rewrite IH by done.
    rewrite prompt_after_again. cbn [map refusals prompt_after].
    f_equal. rewrite <- !app_assoc. reflexivity.
Qed.

Lemma handleUserInput_valid query validResponses w bad good later :
  stdin w = bad ++ good :: later ->
  Forall (fun chunk => Chunk.line chunk ∉ validResponses) bad ->
  Chunk.line good ∈ validResponses ->
  Cli.handleUserInput query validResponses w =
  (Resolved (Chunk.line good),
   {| trace := trace w ++ refusals query (map Chunk.line bad)
                 ++ [Question (prompt_after query (map Chunk.line bad)) (Chunk.line good)];
      clock := clock w; stdin := later; WATCH_PROVIDERS := WATCH_PROVIDERS w |}).
Proof.
  intros Hstdin Hbad Hgood. unfold Cli.handleUserInput.
  rewrite Hstdin, handleUserInput_on_refused by done. cbn [Cli.handleUserInput_on].
  rewrite bool_decide_eq_true_2 by done. by rewrite <- app_assoc.
Qed.

Lemma handleUserInput_none query validResponses w :
  Forall (fun chunk => Chunk.line chunk ∉ validResponses) (stdin w) ->
  Cli.handleUserInput query validResponses w =
  (Pending,
   {| trace := trace w ++ refusals query (map Chunk.line (stdin w))
                 ++ [StdoutWrite (prompt_after query (map Chunk.line (stdin w)))];
      clock := clock w; stdin := []; WATCH_PROVIDERS := WATCH_PROVIDERS w |}).
Proof.
  intros Hbad. unfold Cli.handleUserInput.
  rewrite <- (app_nil_r (stdin w)) at 1.
  rewrite handleUserInput_on_refused by done. cbn [Cli.handleUserInput_on].
  by rewrite <- app_assoc.
Qed.

(** X9. Of a chunk of standard input [handleUserInput] reads the first
    line only: each prompt has a [readline] interface of its own, closed
    once the prompt is answered, and what follows the answer in the same
    chunk is lost with it. [handleUserInput] resolves with the first line
    of the first chunk whose first line is among the valid responses. The
    chunks before that one are each answered by their first line and
    refused: the line is asked for, the first with the caller's prompt and
    the later ones with the standing prompt, and cleared from the
    terminal. The chunks after it are left to be read. *)
Theorem the_first_valid_answer_is_taken query validResponses w bad good later :
  stdin w = bad ++ good :: later ->
  Forall (fun chunk => Chunk.line chunk ∉ validResponses) bad ->
  Chunk.line good ∈ validResponses ->
  Cli.handleUserInput query validResponses w =
  (Resolved (Chunk.line good),
   {| trace := trace w ++ refusals query (map Chunk.line bad)
                 ++ [Question (prompt_after query (map Chunk.line bad)) (Chunk.line good)];
      clock := clock w; stdin := later; WATCH_PROVIDERS := WATCH_PROVIDERS w |}).
Proof.
  intros Hstdin Hbad Hgood. unfold Cli.handleUserInput.
  rewrite Hstdin, (handleUserInput_on_refused bad query validResponses (trace w)) by done.
  cbn [Cli.handleUserInput_on].
  rewrite bool_decide_eq_true_2 by done.
  by rewrite <- app_assoc.
Qed.

(** X10. [handleUserInput] never rejects, and it is left waiting exactly
    when no chunk to come has a first line among the valid responses,
    whatever the lines after the first: every chunk is then taken, its
    first line refused, and the prompt stands unanswered. An answer it
    resolves with is one of the valid responses. *)
Theorem waiting_exactly_when_no_answer_is_valid query validResponses w :
  ((Cli.handleUserInput query validResponses w).1 = Pending <->
   Forall (fun chunk => Chunk.line chunk ∉ validResponses) (stdin w))
  /\ (Forall (fun chunk => Chunk.line chunk ∉ validResponses) (stdin w) ->
      (Cli.handleUserInput query validResponses w).2 =
      {| trace := trace w ++ refusals query (map Chunk.line (stdin w))
                    ++ [StdoutWrite (prompt_after query (map Chunk.line (stdin w)))];
         clock := clock w; stdin := []; WATCH_PROVIDERS := WATCH_PROVIDERS w |})
  /\ (forall e, (Cli.handleUserInput query validResponses w).1 <> Rejected e)
  /\ (forall choice, (Cli.handleUserInput query validResponses w).1 = Resolved choice ->
        choice ∈ validResponses).
Proof.
  destruct (first_valid_chunk validResponses (stdin w))
    as [Hall|(bad & good & later & Hstdin & Hbad & Hgood)].
  - rewrite (handleUserInput_none _ _ _ Hall). cbn [fst snd].
    split; [done|]. split; [done|]. split; discriminate.
  - rewrite (handleUserInput_valid _ _ _ _ _ _ Hstdin Hbad Hgood). cbn [fst snd].
    split; [|split; [|split]].
    + split; [discriminate|]. intros Hall. rewrite Hstdin in Hall.
      apply Forall_app in Hall as [_ Hall]. by inversion_clear Hall.
    + intros Hall. rewrite Hstdin in Hall.
      apply Forall_app in Hall as [_ Hall]. by inversion_clear Hall.
    + discriminate.
    + by intros choice [= <-].
Qed.

(** What a call of [handleUserInput] does to the world. *)
Lemma handleUserInput_stretch query validResponses w :
  exists consumed,
    stretch w (Cli.handleUserInput query validResponses w).2 consumed 0
    /\ ((Cli.handleUserInput query validResponses w).1 = Pending ->
        stdin (Cli.handleUserInput query validResponses w).2 = [])
    /\ (forall choice, (Cli.handleUserInput query validResponses w).1 = Resolved choice ->
          consumed <> [])
    /\ (forall e, (Cli.handleUserInput query validResponses w).1 <> Rejected e).
Proof.
  unfold stretch, requests_made.
  destruct (first_valid_chunk validResponses (stdin w))
    as [Hall|(bad & good & later & Hstdin & Hbad & Hgood)].
  - rewrite (handleUserInput_none _ _ _ Hall). cbn [fst snd trace stdin WATCH_PROVIDERS].
    exists (stdin w). rewrite !requested_urls_app, requested_urls_refusals. cbn.
    rewrite !app_nil_r, Nat.add_0_r.
    split; [|split; [done|split; discriminate]].
    split; [done|]. split; [by apply prefix_app_r|done].
  - rewrite (handleUserInput_valid _ _ _ _ _ _ Hstdin Hbad Hgood).
    cbn [fst snd trace stdin WATCH_PROVIDERS].
    exists (bad ++ [good]). rewrite !requested_urls_app, requested_urls_refusals. cbn.
    rewrite !app_nil_r, Nat.add_0_r, <- app_assoc.
    split; [|split; [discriminate|split; [|discriminate]]].
    + split; [done|]. split; [by apply prefix_app_r|done].
    + intros _ _ Hnil. by destruct bad.
Qed.

Lemma stretch_refl w : stretch w w [] 0.
Proof. unfold stretch. rewrite Nat.add_0_r. done. Qed.

Lemma stretch_trans w1 w2 w3 c1 c2 r1 r2 :
  stretch w1 w2 c1 r1 -> stretch w2 w3 c2 r2 -> stretch w1 w3 (c1 ++ c2) (r1 + r2).
Proof.
  unfold stretch. intros (Hs1 & Ht1 & Hr1 & Hc1) (Hs2 & Ht2 & Hr2 & Hc2).
  split; [by rewrite Hs1, Hs2, app_assoc|]. split; [by etrans|].
  split; [lia|congruence].
Qed.

Lemma stretch_after_lines {A} (f : nat -> A -> jsstring) (l : list A) extra w :
  requested_urls extra = [] ->
  stretch w (after_events (imap (fun k r => StdoutWrite (f k r)) l ++ extra) w) [] 0.
Proof.
  intros Hextra. unfold stretch, after_events, requests_made. cbn [trace stdin WATCH_PROVIDERS].
  rewrite !requested_urls_app, requested_urls_lines, Hextra, app_nil_r, Nat.add_0_r.
  split; [done|]. split; [by apply prefix_app_r|done].
Qed.

Lemma Cli_fetch_stretch {A} `{FromJSON A} url w :
  stretch w (Cli.fetch (A := A) url w).2 [] 1
  /\ ((Cli.fetch (A := A) url w).1 = Pending -> unanswered (Cli.fetch (A := A) url w).2).
Proof.
  unfold Cli.fetch, stretch, requests_made, requested, unanswered.
  cbn [fst snd trace stdin WATCH_PROVIDERS].
  rewrite requested_urls_app, length_app. cbn.
  split; [split; [done|]; split; [by apply prefix_app_r|done]|].
  intros Hp%on_response_Pending. eauto.
Qed.

Lemma Cli_mediaQuery_stretch query type page w :
  stretch w (Cli.mediaQuery query type page w).2 [] 1
  /\ ((Cli.mediaQuery query type page w).1 = Pending ->
      unanswered (Cli.mediaQuery query type page w).2).
Proof.
  unfold Cli.mediaQuery, Cli.movieQuery, Cli.tvQuery, bind, ret.
  destruct type.
  - destruct (Cli_fetch_stretch (A := Search.t)
                (Cli.baseUrl ++ js "/search/movie?" ++ querystring_stringify
                   [(js "query", query); (js "include_adult", to_string false);
                    (js "language", js "en-US"); (js "page", to_string page)]) w) as [Hs Hp].
    destruct (Cli.fetch _ w) as [[search|e|] w1]; done.
  - destruct (Cli_fetch_stretch (A := Search.t)
                (Cli.baseUrl ++ js "/search/tv?" ++ querystring_stringify
                   [(js "query", query); (js "include_adult", to_string false);
                    (js "language", js "en-US"); (js "page", to_string page)]) w) as [Hs Hp].
    destruct (Cli.fetch _ w) as [[search|e|] w1]; done.
Qed.

(** [getAnswerFromUser]: the menu is written, the user is asked, and the
    answer is looked up among the results. *)
Lemma getAnswerFromUser_run results showMoreResults w :
  exists resultsMap : gmap jsstring MediaResult.t,
    Cli.getAnswerFromUser (Some results) showMoreResults w =
    match Cli.handleUserInput (js "Pick an option: ") (choices_on_offer showMoreResults results)
            (menu showMoreResults results w) with
    | (Resolved choice, w2) => (Resolved (MediaResult.id <$> resultsMap !! choice), w2)
    | (Rejected e, w2) => (Rejected e, w2)
    | (Pending, w2) => (Pending, w2)
    end
    /\ (forall k r, results !! k = Some r ->
          resultsMap !! to_string (Z.of_nat k + 1) = Some r)
    /\ (forall key,
          (forall k, (k < length results)%nat -> key <> to_string (Z.of_nat k + 1)) ->
          resultsMap !! key = None).
Proof.
  destruct (forEach_result_run results 0 [] ∅ w) as (resultsMap & Hrun & Hin & Hout).
  exists resultsMap. split; [|split].
  - unfold Cli.getAnswerFromUser. rewrite (bind_run _ _ _ _ _ Hrun).
    cbn [fst snd]. unfold choices_on_offer, option_numbers, menu.
    destruct showMoreResults.
    + unfold emit, bind, ret. rewrite after_events_app. cbn [app].
      destruct (Cli.handleUserInput _ _ _) as [[choice|e|] w2]; [|done..].
      by destruct (resultsMap !! choice).
    + unfold bind, ret. rewrite !app_nil_r. cbn [app].
      destruct (Cli.handleUserInput _ _ _) as [[choice|e|] w2]; [|done..].
      by destruct (resultsMap !! choice).
  - intros k r Hk. apply (Hin k r Hk).
  - intros key Hkey. by rewrite Hout.
Qed.

(** A choice on offer is the number of a result or, when more results can
    be shown, the number after the last. *)
Lemma choices_on_offer_cases showMoreResults results choice :
  choice ∈ choices_on_offer showMoreResults results ->
  (exists k r, results !! k = Some r /\ choice = to_string (Z.of_nat k + 1))
  \/ (showMoreResults = true /\ choice = to_string (Z.of_nat (length results) + 1)).
Proof.
  unfold choices_on_offer, option_numbers. intros [Hin|Hin]%elem_of_app.
  - left. apply elem_of_lookup_imap in Hin as (k & r & -> & Hk). eauto.
  - right. destruct showMoreResults; [|by apply elem_of_nil in Hin].
    apply list_elem_of_singleton in Hin. done.
Qed.

(** X11. The answer of [getAnswerFromUser] is the [id] of the result
    whose number the user chose. It is undefined only when more results
    were on offer and the user chose the number after the last result;
    without that option every answer is the [id] of a listed result. *)
Theorem the_answer_is_the_id_of_the_chosen_result results showMoreResults w choice w2 :
  Cli.handleUserInput (js "Pick an option: ") (choices_on_offer showMoreResults results)
    (menu showMoreResults results w) = (Resolved choice, w2) ->
  exists answer,
    Cli.getAnswerFromUser (Some results) showMoreResults w = (Resolved answer, w2)
    /\ match answer with
       | Some id =>
           exists k result,
             results !! k = Some result
             /\ choice = to_string (Z.of_nat k + 1)
             /\ id = MediaResult.id result
       | None =>
           showMoreResults = true /\ choice = to_string (Z.of_nat (length results) + 1)
       end.
Proof.
  intros Hchoice.
  destruct (getAnswerFromUser_run results showMoreResults w) as (resultsMap & Hask & Hin & Hout).
  rewrite Hchoice in Hask. exists (MediaResult.id <$> resultsMap !! choice).
  split; [done|].
  apply handleUserInput_takes_a_line in Hchoice as [_ Hoffer].
  apply choices_on_offer_cases in Hoffer as [(k & r & Hk & ->)|[-> ->]].
  - rewrite (Hin _ _ Hk). cbn. eauto.
  - rewrite Hout; [done|]. intros k Hk Heq%Number_toString_inj. lia.
Qed.

Lemma getAnswerFromUser_stretch results showMoreResults w :
  exists consumed,
    stretch w (Cli.getAnswerFromUser results showMoreResults w).2 consumed 0
    /\ ((Cli.getAnswerFromUser results showMoreResults w).1 = Pending ->
        stdin (Cli.getAnswerFromUser results showMoreResults w).2 = [])
    /\ (forall answer, (Cli.getAnswerFromUser results showMoreResults w).1 = Resolved answer ->
          consumed <> []).
Proof.
  destruct results as [results|].
  - destruct (getAnswerFromUser_run results showMoreResults w) as (resultsMap & -> & _).
    destruct (handleUserInput_stretch (js "Pick an option: ")
                (choices_on_offer showMoreResults results) (menu showMoreResults results w))
      as (consumed & Hs & Hp & Hr & _).
    assert (stretch w (menu showMoreResults results w) [] 0) as Hmenu.
    { apply stretch_after_lines. by destruct showMoreResults. }
    pose proof (stretch_trans _ _ _ _ _ _ _ Hmenu Hs) as Hall. cbn [app Nat.add] in Hall.
    exists consumed.
    destruct (Cli.handleUserInput _ _ _) as [[choice|e|] w2]; cbn [fst snd] in *.
    + split; [done|]. split; [done|]. intros _ _. by eapply Hr.
    + split; [done|]. split; discriminate.
    + split; [done|]. split; [intros _; by apply Hp|discriminate].
  - exists []. cbn. split; [apply stretch_refl|]. split; discriminate.
Qed.

Lemma userSearch_within_stretch query type n : forall page w o w',
  (length (stdin w) < n)%nat ->
  Cli.userSearch_within n query type page w = (o, w') ->
  exists consumed requests,
    stretch w w' consumed requests
    /\ (1 <= requests <= length consumed + 1)%nat
    /\ (o = Pending -> stdin w' = [] \/ unanswered w').
Proof.
  induction n as [|n IH]; intros page w o w' Hn Hrun; [lia|].
  cbn [Cli.userSearch_within] in Hrun. unfold bind at 1 in Hrun.
  destruct (Cli_mediaQuery_stretch query type page w) as [Hq Hqp].
  destruct (Cli.mediaQuery query type page w) as [[search|e|] w1]; cbn [fst snd] in *.
  2:{ injection Hrun as <- <-. exists [], 1%nat.
      split; [done|]. split; [cbn; lia|discriminate]. }
  2:{ injection Hrun as <- <-. exists [], 1%nat.
      split; [done|]. split; [cbn; lia|]. intros _. right. by apply Hqp. }
  unfold bind at 1 in Hrun.
  destruct (getAnswerFromUser_stretch (Search.results search)
              (page <? Search.total_pages search) w1) as (c1 & Ha & Hap & Har).
  pose proof (stretch_trans _ _ _ _ _ _ _ Hq Ha) as Hqa. cbn [app Nat.add] in Hqa.
  destruct (Cli.getAnswerFromUser _ _ w1) as [[id|e|] w2]; cbn [fst snd] in *.
  - specialize (Har id eq_refl).
    assert (0 < length c1)%nat as Hc1 by (destruct c1; [done|cbn; lia]).
    assert (length (stdin w2) < n)%nat as Hn2.
    { destruct Hqa as [Hstdin _]. rewrite Hstdin, length_app in Hn. lia. }
    assert (forall b : bool,
              (if b then Cli.userSearch_within n query type (page + 1) else ret None) w2
              = (o, w') ->
              exists consumed requests,
                stretch w w' consumed requests
                /\ (1 <= requests <= length consumed + 1)%nat
                /\ (o = Pending -> stdin w' = [] \/ unanswered w')) as Hotherwise.
    { intros [|] Hrest.
      - destruct (IH (page + 1) w2 o w' Hn2 Hrest) as (c2 & r2 & Hs2 & Hr2 & Hp2).
        exists (c1 ++ c2), (1 + r2)%nat.
        split; [by eapply stretch_trans|]. split; [rewrite length_app; lia|done].
      - injection Hrest as <- <-. exists c1, 1%nat.
        split; [done|]. split; [lia|discriminate]. }
    destruct id as [id|]; [|by eapply Hotherwise].
    destruct (truthy_number (Some id)); [|by eapply Hotherwise].
    unfold Cli.getMediaById, bind, ret in Hrun.
    destruct (Cli_fetch_stretch (A := Details)
                (Cli.baseUrl ++ js "/" ++ to_string type ++ js "/" ++ to_string id) w2)
      as [Hd Hdp].
    pose proof (stretch_trans _ _ _ _ _ _ _ Hqa Hd) as Hall. rewrite app_nil_r in Hall.
    exists c1, 2%nat.
    destruct (Cli.fetch _ w2) as [[details|e|] w3]; cbn [fst snd] in *;
      injection Hrun as <- <-; (split; [done|]); (split; [lia|]);
      [discriminate|discriminate|].
    intros _. right. by apply Hdp.
  - injection Hrun as <- <-. exists c1, 1%nat. split; [done|]. split; [lia|discriminate].
  - injection Hrun as <- <-. exists c1, 1%nat.
    split; [done|]. split; [lia|]. intros _. left. by apply Hap.
Qed.

(** X12. On a page that is the last, [userSearch] offers the results and
    nothing else: an accepted answer is the number of a result, whose
    details are then fetched, unless its [id] is zero, in which case the
    search ends with no value and no further request. *)
Theorem the_last_page_offers_only_its_results query type page w search w1 results :
  Cli.mediaQuery query type page w = (Resolved search, w1) ->
  Search.results search = Some results ->
  Search.total_pages search <= page ->
  (choices_on_offer false results = imap (fun k _ => to_string (Z.of_nat k + 1)) results
   /\ trace (menu false results w1) =
      trace w1 ++ imap (fun k r => StdoutWrite (Cli.option_line (Z.of_nat k) r)) results)
  /\ (forall choice w2,
        Cli.handleUserInput (js "Pick an option: ") (choices_on_offer false results)
          (menu false results w1) = (Resolved choice, w2) ->
        exists k result,
          results !! k = Some result
          /\ choice = to_string (Z.of_nat k + 1)
          /\ Cli.userSearch query type page w =
             if MediaResult.id result =? 0 then (Resolved None, w2)
             else bind (Cli.getMediaById (MediaResult.id result) type)
                    (fun details => ret (Some details)) w2)
  /\ (forall w2,
        Cli.handleUserInput (js "Pick an option: ") (choices_on_offer false results)
          (menu false results w1) = (Pending, w2) ->
        Cli.userSearch query type page w = (Pending, w2)).
Proof.
  intros Hq Hr Hpage.
  destruct (getAnswerFromUser_run results false w1) as (resultsMap & Hask & Hin & Hout).
  assert ((page <? Search.total_pages search) = false) as Hlt by (apply Z.ltb_ge; exact Hpage).
  split; [|split].
  - unfold choices_on_offer, option_numbers, menu, after_events. cbn [trace].
    by rewrite !app_nil_r.
  - intros choice w2 Hchoice.
    pose proof (handleUserInput_takes_a_line _ _ _ _ _ Hchoice) as [_ Hoffer].
    apply choices_on_offer_cases in Hoffer as [(k & result & Hk & ->)|[[=] _]].
    exists k, result. split; [done|]. split; [done|].
    rewrite (userSearch_unfold (S (length (stdin w)))) by lia.
    cbn [Cli.userSearch_within]. rewrite (bind_run _ _ _ _ _ Hq), Hr, Hlt.
    unfold bind at 1. rewrite Hask, Hchoice, (Hin _ _ Hk).
    cbn [fmap option_fmap option_map truthy_number andb].
    by destruct (MediaResult.id result =? 0).
  - intros w2 Hwait.
    rewrite (userSearch_unfold (S (length (stdin w)))) by lia.
    cbn [Cli.userSearch_within]. rewrite (bind_run _ _ _ _ _ Hq), Hr, Hlt.
    unfold bind at 1. by rewrite Hask, Hwait.
Qed.

(** X13. A last page with no result leaves [userSearch] waiting for
    ever: nothing is on offer, so whatever the user enters is refused (the
    first line of each chunk, which is all that is read of it), and the
    promise never settles. *)
Theorem an_empty_last_page_never_ends query type page w search w1 :
  Cli.mediaQuery query type page w = (Resolved search, w1) ->
  Search.results search = Some [] ->
  Search.total_pages search <= page ->
  Cli.userSearch query type page w =
  (Pending,
   {| trace := trace w1 ++ refusals (js "Pick an option: ") (map Chunk.line (stdin w))
                 ++ [StdoutWrite (js "Pick an option: ")];
      clock := clock w1; stdin := []; WATCH_PROVIDERS := WATCH_PROVIDERS w1 |}).
Proof.
  intros Hq Hr Hpage.
  destruct (getAnswerFromUser_run [] false w1) as (resultsMap & Hask & _).
  assert ((page <? Search.total_pages search) = false) as Hlt by (apply Z.ltb_ge; exact Hpage).
  rewrite (userSearch_unfold (S (length (stdin w)))) by lia.
  cbn [Cli.userSearch_within]. rewrite (bind_run _ _ _ _ _ Hq), Hr, Hlt.
  unfold bind at 1. rewrite Hask.
  rewrite handleUserInput_none by (apply Forall_forall; intros chunk _; apply not_elem_of_nil).
  unfold menu, after_events. cbn [trace clock stdin WATCH_PROVIDERS imap app].
  rewrite (mediaQuery_stdin _ _ _ _ _ _ Hq), app_nil_r, prompt_after_again. reflexivity.
Qed.

(** X14. A search that fails ends [userSearch] at once, with that
    failure, after its one request and before anything is written or
    read; a search whose answer has no [results] ends it with a
    [TypeError], which is what [getAnswerFromUser] throws on undefined
    results, whatever the world. *)
Theorem a_failed_search_ends_the_search query type page w :
  (forall e w1,
     Cli.mediaQuery query type page w = (Rejected e, w1) ->
     Cli.userSearch query type page w = (Rejected e, w1))
  /\ (forall search w1,
        Cli.mediaQuery query type page w = (Resolved search, w1) ->
        Search.results search = None ->
        Cli.userSearch query type page w = (Rejected TypeError, w1))
  /\ (forall showMoreResults w1,
        Cli.getAnswerFromUser None showMoreResults w1 = (Rejected TypeError, w1))
  /\ (exists request,
        trace (Cli.mediaQuery query type page w).2 = trace w ++ [HttpsGet request]
        /\ stdin (Cli.mediaQuery query type page w).2 = stdin w).
Proof.
  split; [|split; [|split]].
  - intros e w1 Hq. unfold Cli.userSearch. cbn [Cli.userSearch_within].
    unfold bind at 1. by rewrite Hq.
  - intros search w1 Hq Hr. unfold Cli.userSearch. cbn [Cli.userSearch_within].
    rewrite (bind_run _ _ _ _ _ Hq), Hr. reflexivity.
  - done.
  - unfold Cli.mediaQuery, Cli.movieQuery, Cli.tvQuery, Cli.fetch, bind, ret.
    destruct type; destruct (on_response _); cbn; eauto.
Qed.

(** X15. However a run of [userSearch] goes, it takes the chunks of
    standard input in order, it makes at least one request and at most one
    more than the chunks it took, what was on the trace stays there, and
    the cache of providers is left alone. It is left waiting only in two
    ways: every chunk has been taken and the prompt stands unanswered, or
    its last request is never answered (no timeout is set). *)
Theorem the_search_asks_before_each_further_request query type page w :
  exists consumed,
    stdin w = consumed ++ stdin (Cli.userSearch query type page w).2
    /\ trace w `prefix_of` trace (Cli.userSearch query type page w).2
    /\ (requests_made (trace w) + 1
        <= requests_made (trace (Cli.userSearch query type page w).2)
        <= requests_made (trace w) + length consumed + 1)%nat
    /\ WATCH_PROVIDERS (Cli.userSearch query type page w).2 = WATCH_PROVIDERS w
    /\ ((Cli.userSearch query type page w).1 = Pending ->
        stdin (Cli.userSearch query type page w).2 = []
        \/ unanswered (Cli.userSearch query type page w).2).
Proof.
  unfold Cli.userSearch.
  destruct (Cli.userSearch_within _ query type page w) as [o w'] eqn:Hrun.
  destruct (userSearch_within_stretch query type _ page w o w' (Nat.lt_succ_diag_r _) Hrun)
    as (consumed & requests & (Hstdin & Htrace & Hreq & Hcache) & Hbound & Hwait).
  exists consumed. cbn [fst snd].
  split; [done|]. split; [done|]. split; [lia|]. split; done.
Qed.

End Prompting.

Lemma the_first_valid_answer_is_taken_witness :
  Cli.handleUserInput (P := single_page) (js "Which one? ") [js "1"; js "2"]
    (Example.start_piped
       [ {| Chunk.line := js "x"; Chunk.rest := [js "2"] |};
         {| Chunk.line := js "3"; Chunk.rest := [] |};
         {| Chunk.line := js "2"; Chunk.rest := [js "1"] |};
         {| Chunk.line := js "1"; Chunk.rest := [] |} ])
  = (Resolved (js "2"),
     {| trace := [Question (js "Which one? ") (js "x"); StdoutWrite clear_line;
                  Question (js "Pick an option: ") (js "3"); StdoutWrite clear_line;
                  Question (js "Pick an option: ") (js "2")];
        clock := 0; stdin := [ {| Chunk.line := js "1"; Chunk.rest := [] |} ];
        WATCH_PROVIDERS := ∅ |}).
Proof.
  apply (the_first_valid_answer_is_taken (P := single_page) (js "Which one? ")
           [js "1"; js "2"]
           (Example.start_piped
              [ {| Chunk.line := js "x"; Chunk.rest := [js "2"] |};
                {| Chunk.line := js "3"; Chunk.rest := [] |};
                {| Chunk.line := js "2"; Chunk.rest := [js "1"] |};
                {| Chunk.line := js "1"; Chunk.rest := [] |} ])
           [ {| Chunk.line := js "x"; Chunk.rest := [js "2"] |};
             {| Chunk.line := js "3"; Chunk.rest := [] |} ]
           {| Chunk.line := js "2"; Chunk.rest := [js "1"] |}
           [ {| Chunk.line := js "1"; Chunk.rest := [] |} ]).
  - reflexivity.
  - apply (bool_decide_unpack _). vm_compute. exact I.
  - apply (bool_decide_unpack _). vm_compute. exact I.
Defined.

(** The four lines x, 3, 2 and 1 in one chunk: the first is refused, the
    others are lost, and the prompt waits although valid answers were
    entered. *)
Lemma waiting_exactly_when_no_answer_is_valid_witness :
  (Cli.handleUserInput (P := single_page) (js "Which one? ") [js "1"; js "2"]
     (Example.start_piped
        [ {| Chunk.line := js "x"; Chunk.rest := [js "3"; js "2"; js "1"] |} ])).1
  = Pending.
Proof.
  destruct (waiting_exactly_when_no_answer_is_valid (P := single_page) (js "Which one? ")
              [js "1"; js "2"]
              (Example.start_piped
                 [ {| Chunk.line := js "x"; Chunk.rest := [js "3"; js "2"; js "1"] |} ]))
    as [[_ Hwaits] _].
  apply Hwaits. apply (bool_decide_unpack _). vm_compute. exact I.
Defined.

Lemma the_answer_is_the_id_of_the_chosen_result_witness :
  (Cli.getAnswerFromUser (P := single_page) (Some first_page) false
     (Example.start [js "3"; js "2"; js "1"])).1
  = Resolved (Some 0)
  /\ stdin
       (Cli.getAnswerFromUser (P := single_page) (Some first_page) false
          (Example.start [js "3"; js "2"; js "1"])).2
     = [Example.typed (js "1")].
Proof.
  destruct (the_answer_is_the_id_of_the_chosen_result (P := single_page) first_page false
              (Example.start [js "3"; js "2"; js "1"]) (js "2")
              (Cli.handleUserInput (P := single_page) (js "Pick an option: ")
                 (choices_on_offer false first_page)
                 (menu (P := single_page) false first_page
                    (Example.start [js "3"; js "2"; js "1"]))).2)
    as (answer & Hask & _).
  { vm_compute. reflexivity. }
  rewrite Hask. vm_compute in Hask. injection Hask as <-. split; reflexivity.
Defined.

Lemma the_last_page_offers_only_its_results_witness :
  (Cli.userSearch (P := single_page) (js "terminator") movie 1
     (Example.start [js "4"; js "1"])).1
  = Resolved (Some (js "details"))
  /\ requests_made
       (trace (Cli.userSearch (P := single_page) (js "terminator") movie 1
                 (Example.start [js "4"; js "1"])).2) = 2%nat.
Proof.
  destruct (the_last_page_offers_only_its_results (P := single_page) (js "terminator") movie 1
              (Example.start [js "4"; js "1"])
              (Example.search_of
                 (Some [Example.the_terminator; Example.nameless; Example.unreleased]) 1 1)
              (Cli.mediaQuery (P := single_page) (js "terminator") movie 1
                 (Example.start [js "4"; js "1"])).2
              [Example.the_terminator; Example.nameless; Example.unreleased])
    as (_ & Hpick & _); [reflexivity|reflexivity|cbn; lia|].
  destruct (Hpick (js "1")
              (Cli.handleUserInput (P := single_page) (js "Pick an option: ")
                 (choices_on_offer false
                    [Example.the_terminator; Example.nameless; Example.unreleased])
                 (menu (P := single_page) false
                    [Example.the_terminator; Example.nameless; Example.unreleased]
                    (Cli.mediaQuery (P := single_page) (js "terminator") movie 1
                       (Example.start [js "4"; js "1"])).2)).2)
    as (k & result & Hk & Hchoice & ->).
  { vm_compute. reflexivity. }
  apply (Number_toString_inj 1) in Hchoice.
  assert (k = 0%nat) as -> by lia. injection Hk as <-.
  split; vm_compute; reflexivity.
Defined.

Lemma an_empty_last_page_never_ends_witness :
  (Cli.userSearch (P := empty_page) (js "zzz") movie 1 (Example.start [js "1"; js "q"])).1
  = Pending
  /\ stdin (Cli.userSearch (P := empty_page) (js "zzz") movie 1
              (Example.start [js "1"; js "q"])).2 = [].
Proof.
  rewrite (an_empty_last_page_never_ends (P := empty_page) (js "zzz") movie 1
             (Example.start [js "1"; js "q"]) (Example.search_of (Some []) 1 1)
             (Cli.mediaQuery (P := empty_page) (js "zzz") movie 1
                (Example.start [js "1"; js "q"])).2
             eq_refl eq_refl ltac:(vm_compute; discriminate)).
  split; reflexivity.
Defined.

(* ------------------------------------------------------------------ *)
(** ** Requests that are never answered, on the example platform *)
(* ------------------------------------------------------------------ *)

(** The server that finds nothing answers every request. *)
Lemma quiet_answers : answering (P := quiet).
Proof.
  intros events request. unfold quiet. cbn [server Example.scripted].
  destruct (Example.requests_so_far events) as [|[|[|n]]]; discriminate.
Qed.

Lemma the_handler_answers_at_most_once_witness :
  answering (P := quiet)
  /\ (Bot.on_inline_query (P := quiet) a_query (Example.start [])).1 = Resolved tt
  /\ Example.requests_so_far
       (trace (Bot.on_inline_query (P := quiet) a_query (Example.start [])).2) = 2%nat
  /\ (Bot.on_inline_query (P := Example.scripted [NoAnswer]) a_query (Example.start [])).1
     = Pending.
Proof.
  destruct (the_handler_answers_at_most_once (P := quiet) a_query (Example.start []))
    as (requests & answers & _ & _ & _ & _ & Hsettles).
  specialize (Hsettles quiet_answers).
  split; [exact quiet_answers|].
  split; [|split; vm_compute; reflexivity].
  destruct (Bot.on_inline_query (P := quiet) a_query (Example.start [])).1 as [[]|e|] eqn:Ho;
    [reflexivity|vm_compute in Ho; discriminate|done].
Defined.

Lemma one_call_touches_one_entry_witness :
  (Bot.getWatchProviders (P := Example.scripted [NoAnswer]) movie (Example.start [])).1
  = Pending
  /\ WATCH_PROVIDERS
       (Bot.getWatchProviders (P := Example.scripted [NoAnswer]) movie (Example.start [])).2
     = ∅
  /\ (Bot.getWatchProviders (P := Example.scripted [Example.ok "catalog A"]) movie
        (Example.start [])).1
     = Resolved (Some (js "catalog A")).
Proof.
  destruct (one_call_touches_one_entry (P := Example.scripted [NoAnswer]) movie
              (Example.start [])) as (_ & _ & _ & Hkept & Hwaits).
  assert ((Bot.getWatchProviders (P := Example.scripted [NoAnswer]) movie
             (Example.start [])).1 = Pending) as Hp.
  { apply Hwaits. split; reflexivity. }
  split; [exact Hp|]. split; [|vm_compute; reflexivity].
  rewrite Hkept; [reflexivity|]. intros value. rewrite Hp. discriminate.
Defined.

Lemma the_search_asks_before_each_further_request_witness :
  (Cli.userSearch (P := Example.scripted [Example.ok "page 1"; NoAnswer])
     (js "terminator") movie 1 (Example.start [js "3"; js "1"])).1
  = Pending
  /\ stdin
       (Cli.userSearch (P := Example.scripted [Example.ok "page 1"; NoAnswer])
          (js "terminator") movie 1 (Example.start [js "3"; js "1"])).2
     = [Example.typed (js "1")]
  /\ unanswered
       (Cli.userSearch (P := Example.scripted [Example.ok "page 1"; NoAnswer])
          (js "terminator") movie 1 (Example.start [js "3"; js "1"])).2.
Proof.
  destruct (the_search_asks_before_each_further_request
              (P := Example.scripted [Example.ok "page 1"; NoAnswer])
              (js "terminator") movie 1 (Example.start [js "3"; js "1"]))
    as (consumed & _ & _ & _ & _ & Hwaits).
  split; [vm_compute; reflexivity|]. split; [vm_compute; reflexivity|].
  destruct Hwaits as [Hnone|Hrequest]; [vm_compute; reflexivity| |exact Hrequest].
  vm_compute in Hnone. discriminate.
Defined.
